(** * Analyse controller (ui/analyse/src/ctrl.ts): navigation and engine coordination

    A shallow embedding of the [AnalyseController] class.  The controller is
    a mutable object driven by run-to-completion handlers; each method is
    embedded as a function from the controller state to an outcome, the
    state it leaves behind and the chronological list of calls it made to
    its collaborators (board, sound, engine, overlays, socket). *)

From Stdlib Require Import ZArith List String Ascii Bool Lia.
Import ListNotations.
Open Scope string_scope.
Open Scope Z_scope.
Open Scope list_scope.

(** ** Data model *)

(** [Tree.ClientEval]: the content of an evaluation object produced by the
    local engine or fetched from the cloud.  Numbers are the integers the
    engine reports; [maxDepth] may be missing. *)
Module ClientEval.
Record t := mk {
  fen : string;
  depth : Z;
  maxDepth : option Z;
  nodes : Z;
  cp : option Z;
  mate : option Z;
  pvs : list string;
  cloud : bool;
  retried : bool
}.

Definition set_maxDepth (d : option Z) (e : t) : t :=
  mk (fen e) (depth e) d (nodes e) (cp e) (mate e) (pvs e) (cloud e) (retried e).

Definition set_retried (b : bool) (e : t) : t :=
  mk (fen e) (depth e) (maxDepth e) (nodes e) (cp e) (mate e) (pvs e) (cloud e) b.
End ClientEval.

(** Evaluations are JS objects.  A node's [ceval] and [threat] hold
    references, the engine hands [onNewCeval] a reference, and an
    assignment to a field of an object is seen through every reference to
    it.  [Obj] is the identity of an evaluation object and [Evals] gives
    the content of every object. *)
Definition Obj := nat.

Definition Evals := Obj -> ClientEval.t.

(** [o.field = v]: the object [o] changes, every other object stays. *)
Definition write (o : Obj) (f : ClientEval.t -> ClientEval.t) (h : Evals)
  : Evals :=
  fun o' => if Nat.eqb o' o then f (h o') else h o'.

(** [a < b] on numbers that may be [undefined]: a comparison with
    [undefined] is false. *)
Definition js_lt (a b : option Z) : bool :=
  match a, b with
  | Some x, Some y => x <? y
  | _, _ => false
  end.

(** [Tree.Path]: the sequence of move identifiers from the root.  The
    source holds it as one string, the identifiers written one after the
    other; [path !== this.path] is then inequality of the sequences and the
    empty string is the empty sequence. *)
Definition Path := list string.

(** [Tree.Node].  Optional JS fields are options; [check] and [threefold]
    are read through their truthiness only. *)
Module Node.
#[warnings="-register-all"]
Inductive t := mk {
  id : string;
  ply : Z;
  fen : string;
  uci : option string;
  san : option string;
  check : bool;
  dests : option string;
  drops : option string;
  threefold : bool;
  ceval : option Obj;
  threat : option Obj;
  shapes : option (list string);
  comments : list string;
  children : list t
}.

Definition set_ceval (c : option Obj) (n : t) : t :=
  mk (id n) (ply n) (fen n) (uci n) (san n) (check n) (dests n) (drops n)
     (threefold n) c (threat n) (shapes n) (comments n) (children n).

Definition set_threat (c : option Obj) (n : t) : t :=
  mk (id n) (ply n) (fen n) (uci n) (san n) (check n) (dests n) (drops n)
     (threefold n) (ceval n) c (shapes n) (comments n) (children n).

Definition set_children (cs : list t) (n : t) : t :=
  mk (id n) (ply n) (fen n) (uci n) (san n) (check n) (dests n) (drops n)
     (threefold n) (ceval n) (threat n) (shapes n) (comments n) cs.
End Node.

(** ** JavaScript truthiness of the values the controller tests *)

(** A string is truthy unless it is undefined or empty. *)
Definition truthy_str (s : option string) : bool :=
  match s with
  | Some EmptyString => false
  | Some _ => true
  | None => false
  end.

(** A number is truthy unless it is undefined or zero. *)
Definition truthy_num (z : option Z) : bool :=
  match z with
  | Some v => negb (Z.eqb v 0)
  | None => false
  end.

(** [s.indexOf(c) !== -1] for a one-character needle. *)
Fixpoint has_char (c : ascii) (s : string) : bool :=
  match s with
  | EmptyString => false
  | String a r => Ascii.eqb a c || has_char c r
  end.

Fixpoint path_eqb (p q : Path) : bool :=
  match p, q with
  | [], [] => true
  | a :: p', b :: q' => String.eqb a b && path_eqb p' q'
  | _, _ => false
  end.

(** ** The tree collaborator *)

(** Modelled from the spec: the [tree] package (path helpers) is not under
    src/.  A path is the sequence of move identifiers from the root, the
    root has the empty path, [init] drops the last identifier and
    [contains p1 p2] holds when [p1] runs through [p2]. *)
Module treePath.
Definition root : Path := [].

Definition init (p : Path) : Path := removelast p.

Definition last (p : Path) : option string :=
  match rev p with
  | [] => None
  | i :: _ => Some i
  end.

Fixpoint contains (p1 p2 : Path) : bool :=
  match p2, p1 with
  | [], _ => true
  | b :: q2, a :: q1 => String.eqb a b && contains q1 q2
  | _ :: _, [] => false
  end.
End treePath.

Module treeOps.
(** Modelled from the spec: [treeOps.childById] is not under src/; the
    child reached by one move identifier. *)
Definition childById (i : string) (cs : list Node.t) : option Node.t :=
  find (fun c => String.eqb (Node.id c) i) cs.

(** Modelled from the spec: [treeOps.last] is not under src/; the last
    node of a node list. *)
Definition last (l : list Node.t) : option Node.t :=
  match rev l with
  | [] => None
  | n :: _ => Some n
  end.

Record Count := mkCount { nodes : Z; comments : Z }.

(** Modelled from the spec: [treeOps.countChildrenAndComments] is not
    under src/; the number of nodes of the subtree and the number of
    comments it carries. *)
Fixpoint countChildrenAndComments (n : Node.t) : Count :=
  let fix go (cs : list Node.t) : Count :=
    match cs with
    | [] => mkCount 0 0
    | c :: r =>
        let a := countChildrenAndComments c in
        let b := go r in
        mkCount (nodes a + nodes b) (comments a + comments b)
    end in
  let k := go (Node.children n) in
  mkCount (1 + nodes k) (Z.of_nat (List.length (Node.comments n)) + comments k).
End treeOps.

(** Modelled from the spec: the tree wrapper built by [makeTree] is not
    under src/.  Section 4.1: path-based lookup that resolves to not found
    when a move identifier has no child; [updateAt] mutates the node at the
    path if present; [addNode] returns the new path, or a failure marker
    and an unchanged tree when the parent path is absent; [deleteNodeAt]
    removes the subtree from its parent's children and the root is
    permanent. *)
Module Tree.
Fixpoint nodeAtPath (root : Node.t) (p : Path) : option Node.t :=
  match p with
  | [] => Some root
  | i :: q =>
      match treeOps.childById i (Node.children root) with
      | Some c => nodeAtPath c q
      | None => None
      end
  end.

Fixpoint getNodeList (root : Node.t) (p : Path) : list Node.t :=
  root ::
  match p with
  | [] => []
  | i :: q =>
      match treeOps.childById i (Node.children root) with
      | Some c => getNodeList c q
      | None => []
      end
  end.

Fixpoint updateChild (i : string) (f : Node.t -> Node.t) (cs : list Node.t)
  : list Node.t :=
  match cs with
  | [] => []
  | c :: r =>
      if String.eqb (Node.id c) i then f c :: r else c :: updateChild i f r
  end.

Fixpoint updateAt (p : Path) (f : Node.t -> Node.t) (root : Node.t) : Node.t :=
  match p with
  | [] => f root
  | i :: q =>
      Node.set_children (updateChild i (updateAt q f) (Node.children root)) root
  end.

Definition addNode (node : Node.t) (p : Path) (root : Node.t)
  : option Path * Node.t :=
  match nodeAtPath root p with
  | Some _ =>
      (Some (p ++ [Node.id node]),
       updateAt p
         (fun parent => Node.set_children (Node.children parent ++ [node]) parent)
         root)
  | None => (None, root)
  end.

Definition removeChild (i : string) (parent : Node.t) : Node.t :=
  Node.set_children
    (filter (fun c => negb (String.eqb (Node.id c) i)) (Node.children parent))
    parent.

Definition deleteNodeAt (p : Path) (root : Node.t) : Node.t :=
  match treePath.last p with
  | None => root
  | Some i => updateAt (treePath.init p) (removeChild i) root
  end.
End Tree.

(** ** The engine collaborator *)

(** What the controller reads from a [CevalController]: [enabled()],
    [possible], [pnaclSupported], [multiPv()] after [parseInt], and
    [effectiveMaxDepth()]. *)
Module Ceval.
Record t := mk {
  enabled : bool;
  possible : bool;
  pnaclSupported : bool;
  multiPv : Z;
  effectiveMaxDepth : Z
}.
End Ceval.

(** [CevalOpts] as filled in by [instanciateCeval]; the callbacks it also
    carries ([emit], [setAutoShapes], [onCrash]) are the handlers below. *)
Module CevalOpts.
Record t := mk {
  variant : string;
  possible : bool;
  failsafe : bool;
  storageKeyPrefix : option string;
  multiPvDefault : option Z
}.
End CevalOpts.

(** ** Controller state *)

(** The parts of [opts] and [data] the modelled methods read; none of them
    is assigned by these methods.  [playable] stands for
    [game.playable(this.data)]. *)
Module Env.
Record t := mk {
  opts_study : bool;
  opts_practice : bool;
  embed : bool;
  synthetic : bool;
  variant : string;
  evalPut : bool;
  playable : bool
}.
End Env.

(** Calls made to collaborators.  A [Call*] or [Sound*] event is a call of a
    throttled wrapper: whether and when the wrapped body runs is the
    throttle's decision and lies outside this model. *)
Inductive Event :=
| CallOnChange
| CallGetDests
| CallUpdateHref
| CallStartCeval
| SoundMove
| SoundCapture
| SoundCheck
| CgSet (fen : string)
| CgSetAutoShapes
| CgSetShapes (shapes : list string)
| CgSelectSquareNull
| CgPlayPremove
| CevalStop
| CevalStart (path : Path) (nodeList : list Node.t) (threatMode : bool)
| CevalDestroy
| CevalCreate (cfg : CevalOpts.t)
| EvalCacheFetch (path : Path) (multiPv : Z)
| EvalCacheOnCeval
| StudySetPath (path : Path) (node : Node.t)
| StudyOnJump
| StudyDeleteNode (path : Path)
| StudyPracticeOnCeval
| RetroOnJump
| RetroOnCeval
| PracticeOnJump
| PracticeOnCeval
| PracticePreUserJump (prev path : Path)
| PracticePostUserJump (prev path : Path)
| ExplorerSetNode
| PromotionCancel
| MusicJump (node : Node.t)
| AutoplayStop
| Redraw
| ConsoleLog
| Confirm (nodes comments : Z).

(** The controller after construction.  Sub-controllers and the board are
    recorded by presence, since the code only tests them and calls them.
    [evals] is the content of the evaluation objects the nodes and the
    engine refer to.
    The cursor fields [nodeList] and [node] alias nodes of the tree: they
    are read off [(tree, path)], so that a mutation of a tree node is seen
    through them as it is in the source. *)
Module Ctrl.
Record t := mk {
  env : Env.t;
  tree : Node.t;
  path : Path;
  ceval : Ceval.t;
  chessground : bool;
  retro : bool;
  practice : bool;
  study : bool;
  studyPractice : bool;
  music : bool;
  justPlayed : option string;
  justDropped : option string;
  justCaptured : option string;
  autoScrollRequested : bool;
  threatMode : bool;
  evals : Evals
}.

Definition set_tree (x : Node.t) (s : t) : t :=
  mk (env s) x (path s) (ceval s) (chessground s) (retro s) (practice s)
     (study s) (studyPractice s) (music s) (justPlayed s) (justDropped s)
     (justCaptured s) (autoScrollRequested s) (threatMode s) (evals s).

Definition set_path (x : Path) (s : t) : t :=
  mk (env s) (tree s) x (ceval s) (chessground s) (retro s) (practice s)
     (study s) (studyPractice s) (music s) (justPlayed s) (justDropped s)
     (justCaptured s) (autoScrollRequested s) (threatMode s) (evals s).

Definition set_ceval (x : Ceval.t) (s : t) : t :=
  mk (env s) (tree s) (path s) x (chessground s) (retro s) (practice s)
     (study s) (studyPractice s) (music s) (justPlayed s) (justDropped s)
     (justCaptured s) (autoScrollRequested s) (threatMode s) (evals s).

Definition set_threatMode (x : bool) (s : t) : t :=
  mk (env s) (tree s) (path s) (ceval s) (chessground s) (retro s) (practice s)
     (study s) (studyPractice s) (music s) (justPlayed s) (justDropped s)
     (justCaptured s) (autoScrollRequested s) x (evals s).

Definition set_autoScrollRequested (x : bool) (s : t) : t :=
  mk (env s) (tree s) (path s) (ceval s) (chessground s) (retro s) (practice s)
     (study s) (studyPractice s) (music s) (justPlayed s) (justDropped s)
     (justCaptured s) x (threatMode s) (evals s).

(** [justPlayed], [justDropped] and [justCaptured] set to [undefined]. *)
Definition clear_just (s : t) : t :=
  mk (env s) (tree s) (path s) (ceval s) (chessground s) (retro s) (practice s)
     (study s) (studyPractice s) (music s) None None None
     (autoScrollRequested s) (threatMode s) (evals s).

Definition set_evals (x : Evals) (s : t) : t :=
  mk (env s) (tree s) (path s) (ceval s) (chessground s) (retro s) (practice s)
     (study s) (studyPractice s) (music s) (justPlayed s) (justDropped s)
     (justCaptured s) (autoScrollRequested s) (threatMode s) x.

(** [this.nodeList], as [setPath] computes it. *)
Definition nodeList (s : t) : list Node.t := Tree.getNodeList (tree s) (path s).

(** [this.node = treeOps.last(this.nodeList) as Tree.Node]. *)
Definition node (s : t) : Node.t :=
  match treeOps.last (nodeList s) with
  | Some n => n
  | None => tree s
  end.
End Ctrl.

(** ** Handlers: state, outcome and trace *)

Inductive Outcome :=
| Returned
| Threw.

Record Result := mkResult {
  outcome : Outcome;
  final : Ctrl.t;
  trace : list Event
}.

Definition Handler := Ctrl.t -> Result.

Definition skip : Handler := fun s => mkResult Returned s [].

Definition call (e : Event) : Handler := fun s => mkResult Returned s [e].

(** An uncaught [TypeError]: the handler stops, what it did so far stays. *)
Definition throw : Handler := fun s => mkResult Threw s [].

Definition assign (f : Ctrl.t -> Ctrl.t) : Handler :=
  fun s => mkResult Returned (f s) [].

Definition seq (h1 h2 : Handler) : Handler :=
  fun s =>
    let r1 := h1 s in
    match outcome r1 with
    | Returned =>
        let r2 := h2 (final r1) in
        mkResult (outcome r2) (final r2) (trace r1 ++ trace r2)
    | Threw => r1
    end.

Definition read {A : Type} (g : Ctrl.t -> A) (k : A -> Handler) : Handler :=
  fun s => k (g s) s.

Definition when (b : bool) (h : Handler) : Handler := if b then h else skip.

Declare Scope handler_scope.
Delimit Scope handler_scope with handler.
Bind Scope handler_scope with Handler.
Notation "h1 ;; h2" := (seq h1 h2)
  (at level 61, right associativity) : handler_scope.
Notation "'let*' x ':=' g 'in' k" := (read g (fun x => k))
  (at level 61, x name, g at level 200, right associativity) : handler_scope.
Open Scope handler_scope.

(** ** The methods of [AnalyseController] *)

(** [this.justPlayed || ''] *)
Definition or_empty (o : option string) : string :=
  match o with
  | Some s => s
  | None => ""
  end.

(** [/\+|\#/.test(san)]; an undefined [san] is tested as the text
    "undefined", which has neither character. *)
Definition san_checks (san : option string) : bool :=
  match san with
  | Some s => has_char "+" s || has_char "#" s
  | None => false
  end.

(** [defined(v)] of the common package: [v] is not [undefined]. *)
Definition defined {A : Type} (v : option A) : bool :=
  match v with
  | Some _ => true
  | None => false
  end.

(** The value [tree.addNode] hands back is tested by [!newPath]: the
    failure marker and the empty path are both falsy. *)
Definition truthy_path (r : option Path) : bool :=
  match r with
  | Some (_ :: _) => true
  | _ => false
  end.

Inductive GameOver :=
| NotOver
| Draw
| Checkmate.

(** Truthiness of ['draw' | 'checkmate' | false]. *)
Definition truthy_over (g : GameOver) : bool :=
  match g with
  | NotOver => false
  | _ => true
  end.

(** Mutation through the alias [this.node]: the node the cursor rests on is
    the last node of [getNodeList], and assigning to one of its fields
    changes that node of the tree. *)
Fixpoint mutateLast (p : Path) (f : Node.t -> Node.t) (root : Node.t) : Node.t :=
  match p with
  | [] => f root
  | i :: q =>
      match treeOps.childById i (Node.children root) with
      | Some _ =>
          Node.set_children
            (Tree.updateChild i (mutateLast q f) (Node.children root)) root
      | None => f root
      end
  end.

Definition mutate_node (f : Node.t -> Node.t) (s : Ctrl.t) : Ctrl.t :=
  Ctrl.set_tree (mutateLast (Ctrl.path s) f (Ctrl.tree s)) s.

Section Controller.

(** [isEvalBetter] of the ceval package and the [cevalCtrl] factory are not
    under src/: the controller is stated over any such pair. *)
Variable isEvalBetter : ClientEval.t -> option ClientEval.t -> bool.
Variable cevalCtrl : CevalOpts.t -> Ceval.t.

Definition setPath (p : Path) : Handler := assign (Ctrl.set_path p).

Definition setAutoShapes : Handler :=
  let* cg := Ctrl.chessground in
  when cg (call CgSetAutoShapes).

(** [showGround]; the configuration [makeCgOpts] builds for the board is
    represented by the position it shows. *)
Definition showGround : Handler :=
  call CallOnChange ;;
  (let* n := Ctrl.node in
   when (negb (defined (Node.dests n))) (call CallGetDests)) ;;
  let* cg := Ctrl.chessground in
  when cg
    (let* n := Ctrl.node in
     call (CgSet (Node.fen n)) ;;
     setAutoShapes ;;
     match Node.shapes n with
     | Some sh => call (CgSetShapes sh)
     | None => skip
     end).

Definition autoScroll : Handler := assign (Ctrl.set_autoScrollRequested true).

(** The throttled [startCeval]: a call of the wrapper. *)
Definition startCeval : Handler := call CallStartCeval.

(** [jump] after its first line, which computes [pathChanged]. *)
Definition jump_with (pathChanged : bool) (p : Path) : Handler :=
  setPath p ;;
  showGround ;;
  when pathChanged
    ((let* st := Ctrl.study in
      let* n := Ctrl.node in
      when st (call (StudySetPath p n))) ;;
     (let* n := Ctrl.node in
      let* jp := Ctrl.justPlayed in
      match Node.uci n with
      | Some (String _ _ as u) =>
          when (negb (String.prefix (or_empty jp) u))
            match Node.san n with
            | Some san =>
                if has_char "x" san then call SoundCapture else call SoundMove
            | None => throw
            end
      | _ => call SoundMove
      end) ;;
     (let* n := Ctrl.node in
      when (san_checks (Node.san n)) (call SoundCheck)) ;;
     assign (Ctrl.set_threatMode false) ;;
     call CevalStop ;;
     startCeval) ;;
  assign Ctrl.clear_just ;;
  call ExplorerSetNode ;;
  call CallUpdateHref ;;
  autoScroll ;;
  call PromotionCancel ;;
  when pathChanged
    ((let* b := Ctrl.retro in when b (call RetroOnJump)) ;;
     (let* b := Ctrl.practice in when b (call PracticeOnJump)) ;;
     (let* b := Ctrl.study in when b (call StudyOnJump))) ;;
  let* m := Ctrl.music in
  let* n := Ctrl.node in
  when m (call (MusicJump n)).

Definition jump (p : Path) : Handler :=
  let* old := Ctrl.path in
  jump_with (negb (path_eqb p old)) p.

Definition userJump (p : Path) : Handler :=
  call AutoplayStop ;;
  (let* cg := Ctrl.chessground in when cg (call CgSelectSquareNull)) ;;
  let* pr := Ctrl.practice in
  (if pr then
     let* prev := Ctrl.path in
     call (PracticePreUserJump prev p) ;;
     jump p ;;
     let* cur := Ctrl.path in
     call (PracticePostUserJump prev cur)
   else jump p).

Definition addNode (node : Node.t) (p : Path) : Handler :=
  let* t := Ctrl.tree in
  let r := Tree.addNode node p t in
  assign (Ctrl.set_tree (snd r)) ;;
  (if negb (truthy_path (fst r)) then
     call ConsoleLog ;;
     call Redraw
   else
     jump (match fst r with Some newPath => newPath | None => [] end) ;;
     call Redraw ;;
     let* cg := Ctrl.chessground in
     (if cg then call CgPlayPremove else throw)).

(** [deleteNode]; [answer] is what the user replies to [confirm] if the
    dialog is shown. *)
Definition deleteNode (answer : bool) (p : Path) : Handler :=
  let* t := Ctrl.tree in
  match Tree.nodeAtPath t p with
  | None => skip
  | Some node =>
      let count := treeOps.countChildrenAndComments node in
      let proceed :=
        assign (Ctrl.set_tree (Tree.deleteNodeAt p t)) ;;
        (let* cur := Ctrl.path in
         (if treePath.contains cur p then userJump (treePath.init p)
          else jump cur)) ;;
        let* st := Ctrl.study in
        when st (call (StudyDeleteNode p)) in
      if (10 <=? treeOps.nodes count) || (0 <? treeOps.comments count) then
        call (Confirm (treeOps.nodes count) (treeOps.comments count)) ;;
        (if answer then proceed else skip)
      else proceed
  end.

(** The function [onNewCeval] passes to [tree.updateAt], past its first
    line: what it makes of the node, and of the evaluation objects.  It
    assigns the reference [ev] to a field of the node, or assigns to
    [maxDepth] of the object the node's [ceval] refers to. *)
Definition storeEval (ev : Obj) (threatMode : bool) (h : Evals) (node : Node.t)
  : Node.t * Evals :=
  if threatMode then
    if match Node.threat node with
       | None => true
       | Some th =>
           isEvalBetter (h ev) (Some (h th))
           || js_lt (ClientEval.maxDepth (h th)) (ClientEval.maxDepth (h ev))
       end
    then (Node.set_threat (Some ev) node, h)
    else (node, h)
  else if isEvalBetter (h ev) (option_map h (Node.ceval node))
  then (Node.set_ceval (Some ev) node, h)
  else
    match Node.ceval node with
    | Some c =>
        if js_lt (ClientEval.maxDepth (h c)) (ClientEval.maxDepth (h ev))
        then (node, write c (ClientEval.set_maxDepth (ClientEval.maxDepth (h ev))) h)
        else (node, h)
    | None => (node, h)
    end.

Definition onNewCeval (ev : Obj) (p : Path) (threatMode : bool) : Handler :=
  let* t := Ctrl.tree in
  let* h := Ctrl.evals in
  match Tree.nodeAtPath t p with
  | None => skip
  | Some node =>
      if negb (String.eqb (Node.fen node) (ClientEval.fen (h ev)))
         && negb threatMode
      then skip
      else
        assign (Ctrl.set_tree
                  (Tree.updateAt p (fun n => fst (storeEval ev threatMode h n)) t)) ;;
        assign (Ctrl.set_evals (snd (storeEval ev threatMode h node))) ;;
        let* cur := Ctrl.path in
        when (path_eqb p cur)
          (setAutoShapes ;;
           when (negb threatMode)
             ((let* b := Ctrl.retro in when b (call RetroOnCeval)) ;;
              (let* b := Ctrl.practice in when b (call PracticeOnCeval)) ;;
              (let* b := Ctrl.studyPractice in when b (call StudyPracticeOnCeval)) ;;
              call EvalCacheOnCeval ;;
              let* c := Ctrl.ceval in
              let* h' := Ctrl.evals in
              when (ClientEval.cloud (h' ev)
                    && (Ceval.effectiveMaxDepth c <=? ClientEval.depth (h' ev)))
                (call CevalStop)) ;;
           call Redraw)
  end.

(** [instanciateCeval]; on a constructed controller [this.ceval] is set, so
    the previous engine is always destroyed. *)
Definition instanciateCeval (failsafe : bool) : Handler :=
  call CevalDestroy ;;
  let* e := Ctrl.env in
  let practiceCfg := Env.opts_study e && Env.opts_practice e in
  let cfg :=
    CevalOpts.mk (Env.variant e)
      (negb (Env.embed e) && (Env.synthetic e || negb (Env.playable e)))
      failsafe
      (if practiceCfg then Some "practice" else None)
      (if practiceCfg then Some 1 else None) in
  call (CevalCreate cfg) ;;
  assign (Ctrl.set_ceval (cevalCtrl cfg)).

(** The [onCrash] callback handed to the engine.  [ceval.retried = true]
    assigns to the object the node's [ceval] refers to. *)
Definition onCrash : Handler :=
  let* n := Ctrl.node in
  let* h := Ctrl.evals in
  let ceval := Node.ceval n in
  call ConsoleLog ;;
  let* c := Ctrl.ceval in
  when (Ceval.pnaclSupported c)
    (let fallback :=
       call ConsoleLog ;;
       instanciateCeval true ;;
       startCeval in
     match ceval with
     | Some ce =>
         if (20 <=? ClientEval.depth (h ce)) && negb (ClientEval.retried (h ce))
         then
           call ConsoleLog ;;
           assign (fun s =>
                     Ctrl.set_evals
                       (write ce (ClientEval.set_retried true) (Ctrl.evals s)) s)
         else fallback
     | None => fallback
     end).

Definition gameOver_of (n : Node.t) : GameOver :=
  if negb match Node.dests n with Some "" => true | _ => false end
     || truthy_str (Node.drops n)
  then NotOver
  else if Node.check n then Checkmate
  else Draw.

Definition gameOver (node : option Node.t) (s : Ctrl.t) : GameOver :=
  gameOver_of match node with Some n => n | None => Ctrl.node s end.

Definition canUseCeval (s : Ctrl.t) : bool :=
  negb (truthy_over (gameOver None s)) && negb (Node.threefold (Ctrl.node s)).

(** The function wrapped by the throttled [startCeval]. *)
Definition startCeval_body : Handler :=
  let* c := Ctrl.ceval in
  when (Ceval.enabled c)
    (let* s := (fun s => s) in
     (if canUseCeval s then
        call (CevalStart (Ctrl.path s) (Ctrl.nodeList s) (Ctrl.threatMode s)) ;;
        call (EvalCacheFetch (Ctrl.path s) (Ceval.multiPv c))
      else call CevalStop)).

Definition canEvalGet (s : Ctrl.t) (node : Node.t) : bool :=
  Env.opts_study (Ctrl.env s) || (Node.ply node <? 10).

(** [canPut] of the evaluation cache options, by truthiness; [None] is the
    [TypeError] of reading [mate] off an undefined [ceval]. *)
Definition canPut (s : Ctrl.t) (node : Node.t) : option bool :=
  if negb (Env.evalPut (Ctrl.env s)) then Some false
  else if negb (canEvalGet s node) then Some false
  else if Env.opts_study (Ctrl.env s) then Some true
  else if negb (Node.ply node <? 10) then Some false
  else
    match Node.ceval node with
    | None => None
    | Some o =>
        let ce := Ctrl.evals s o in
        Some (negb (truthy_num (ClientEval.mate ce))
              && match ClientEval.cp ce with
                 | Some v => Z.abs v <? 99
                 | None => false
                 end)
    end.

End Controller.

(** ** Vocabulary of the statements *)

(** A mutation that leaves the identifier of a node alone. *)
Definition keeps_id (f : Node.t -> Node.t) : Prop :=
  forall n, Node.id (f n) = Node.id n.

(** A mutation that leaves identifier and children alone: every field
    assignment of the controller is one. *)
Definition keeps_shape (f : Node.t -> Node.t) : Prop :=
  forall n, Node.id (f n) = Node.id n /\ Node.children (f n) = Node.children n.

(** The node the cursor rests on, followed directly: the deepest node the
    path resolves to. *)
Fixpoint walk (root : Node.t) (p : Path) : Node.t :=
  match p with
  | [] => root
  | i :: q =>
      match treeOps.childById i (Node.children root) with
      | Some c => walk c q
      | None => root
      end
  end.

(** [h] leaves the observation [g] of the controller as it was. *)
Definition preserves {A : Type} (g : Ctrl.t -> A) (h : Handler) : Prop :=
  forall s, g (final (h s)) = g s.

(** [h] makes no call selected by [P]. *)
Definition quiet (P : Event -> bool) (h : Handler) : Prop :=
  forall s, filter P (trace (h s)) = [].

(** [h] always returns. *)
Definition returns (h : Handler) : Prop :=
  forall s, outcome (h s) = Returned.

(** [h] ends with the observation [g] at [v], whether it returns or throws. *)
Definition establishes {A : Type} (g : Ctrl.t -> A) (v : A) (h : Handler)
  : Prop :=
  forall s, g (final (h s)) = v.

(** The calls [jump] makes only when the path changed: sounds, the engine
    stop and restart, and the study, retrospection and practice
    notifications. *)
Definition cycle_event (e : Event) : bool :=
  match e with
  | SoundMove | SoundCapture | SoundCheck => true
  | CevalStop | CallStartCeval | CevalStart _ _ _ => true
  | CevalDestroy | CevalCreate _ => true
  | StudySetPath _ _ | StudyOnJump | RetroOnJump | PracticeOnJump => true
  | _ => false
  end.

Definition is_CevalStop (e : Event) : bool :=
  match e with CevalStop => true | _ => false end.

Definition is_CallStartCeval (e : Event) : bool :=
  match e with CallStartCeval => true | _ => false end.

Definition is_RetroOnJump (e : Event) : bool :=
  match e with RetroOnJump => true | _ => false end.

Definition is_PracticeOnJump (e : Event) : bool :=
  match e with PracticeOnJump => true | _ => false end.

Definition is_StudyOnJump (e : Event) : bool :=
  match e with StudyOnJump => true | _ => false end.

Definition occurrences (P : Event -> bool) (l : list Event) : nat :=
  List.length (filter P l).

(** The crash is tolerated: the evaluation object [ce] of the node is
    marked retried and is otherwise as it was, as is every other object;
    the tree and the engine stay, nothing is destroyed, created or
    restarted. *)
Definition crash_tolerated (s : Ctrl.t) (ce : Obj) (r : Result) : Prop :=
  outcome r = Returned
  /\ Node.ceval (Ctrl.node (final r)) = Some ce
  /\ ClientEval.retried (Ctrl.evals (final r) ce) = true
  /\ (forall o,
        Ctrl.evals (final r) o
        = if Nat.eqb o ce then ClientEval.set_retried true (Ctrl.evals s o)
          else Ctrl.evals s o)
  /\ Ctrl.tree (final r) = Ctrl.tree s
  /\ Ctrl.ceval (final r) = Ctrl.ceval s
  /\ trace r = [ConsoleLog; ConsoleLog].

(** The fallback: the engine is destroyed, one is created from a
    configuration with [failsafe] set, and analysis is asked to start. *)
Definition crash_fallback (cevalCtrl : CevalOpts.t -> Ceval.t) (r : Result)
  : Prop :=
  outcome r = Returned
  /\ exists cfg,
       CevalOpts.failsafe cfg = true
       /\ Ctrl.ceval (final r) = cevalCtrl cfg
       /\ trace r = [ConsoleLog; ConsoleLog; CevalDestroy; CevalCreate cfg;
                     CallStartCeval].

(** The jump [deleteNode] makes after the tree's deletion, run on the
    controller with the pruned tree: [userJump] to the parent of [p] when
    the cursor's path runs through [p], [jump] to the cursor's own path
    otherwise. *)
Definition jump_after_delete (p : Path) (s : Ctrl.t) : Result :=
  let pruned := Ctrl.set_tree (Tree.deleteNodeAt p (Ctrl.tree s)) s in
  if treePath.contains (Ctrl.path s) p then userJump (treePath.init p) pruned
  else jump (Ctrl.path s) pruned.

(** What [deleteNode] does once it is past the confirmation, [asked] being
    the calls made before: it ends as that jump ends, in the state the jump
    leaves, having made the jump's calls and then, if the jump returned
    and a study is attached, told the study.  The tree is the pruned one:
    past the root no node is left at [p], at the root the tree is as it
    was; and the cursor is on the jump's target. *)
Definition deleted (asked : list Event) (p : Path) (s : Ctrl.t) (r : Result)
  : Prop :=
  let j := jump_after_delete p s in
  outcome r = outcome j
  /\ final r = final j
  /\ trace r
     = asked ++ trace j
       ++ match outcome j with
          | Returned => if Ctrl.study s then [StudyDeleteNode p] else []
          | Threw => []
          end
  /\ Ctrl.tree (final r) = Tree.deleteNodeAt p (Ctrl.tree s)
  /\ (p <> [] -> Tree.nodeAtPath (Ctrl.tree (final r)) p = None)
  /\ (p = [] -> Ctrl.tree (final r) = Ctrl.tree s)
  /\ Ctrl.path (final r)
     = (if treePath.contains (Ctrl.path s) p then treePath.init p
        else Ctrl.path s).

(** The object a path's node holds as client evaluation, and as threat
    evaluation. *)
Definition cevalAt (s : Ctrl.t) (p : Path) : option Obj :=
  match Tree.nodeAtPath (Ctrl.tree s) p with
  | Some n => Node.ceval n
  | None => None
  end.

Definition threatAt (s : Ctrl.t) (p : Path) : option Obj :=
  match Tree.nodeAtPath (Ctrl.tree s) p with
  | Some n => Node.threat n
  | None => None
  end.

(** The client evaluation stored at a path, and the threat evaluation: what
    [node.ceval] and [node.threat] read there. *)
Definition storedCeval (s : Ctrl.t) (p : Path) : option ClientEval.t :=
  option_map (Ctrl.evals s) (cevalAt s p).

Definition storedThreat (s : Ctrl.t) (p : Path) : option ClientEval.t :=
  option_map (Ctrl.evals s) (threatAt s p).

(** Depths compared across "nothing stored yet". *)
Definition depth_le (a b : option ClientEval.t) : Prop :=
  match a, b with
  | None, _ => True
  | Some x, Some y => ClientEval.depth x <= ClientEval.depth y
  | Some _, None => False
  end.

(** Two contents of an evaluation object that differ in [maxDepth] at
    most. *)
Definition same_but_maxDepth (a b : ClientEval.t) : Prop :=
  ClientEval.fen a = ClientEval.fen b
  /\ ClientEval.depth a = ClientEval.depth b
  /\ ClientEval.nodes a = ClientEval.nodes b
  /\ ClientEval.cp a = ClientEval.cp b
  /\ ClientEval.mate a = ClientEval.mate b
  /\ ClientEval.pvs a = ClientEval.pvs b
  /\ ClientEval.cloud a = ClientEval.cloud b
  /\ ClientEval.retried a = ClientEval.retried b.

(** Evaluations arriving one after the other for the same path, outside
    threat mode. *)
Fixpoint applyEvals (isEvalBetter : ClientEval.t -> option ClientEval.t -> bool)
  (evs : list Obj) (p : Path) (s : Ctrl.t) : Ctrl.t :=
  match evs with
  | [] => s
  | ev :: rest =>
      applyEvals isEvalBetter rest p
        (final (onNewCeval isEvalBetter ev p false s))
  end.

(** ** Collaborators and positions used to run the controller *)

(** Modelled from the spec: [isEvalBetter] of the ceval package is not under
    src/.  Section 3: A is better than B if A has a higher search depth, or
    equal depth with a cloud source outranking a locally computed one; any
    evaluation is better than none. *)
Definition isEvalBetter_spec (a : ClientEval.t) (b : option ClientEval.t) : bool :=
  match b with
  | None => true
  | Some b =>
      (ClientEval.depth b <? ClientEval.depth a)
      || ((ClientEval.depth a =? ClientEval.depth b)
          && ClientEval.cloud a && negb (ClientEval.cloud b))
  end.

Module Sample.
(** An engine factory: the failsafe backend is the one without native
    client support. *)
Definition cevalCtrl (cfg : CevalOpts.t) : Ceval.t :=
  Ceval.mk true (CevalOpts.possible cfg) (negb (CevalOpts.failsafe cfg)) 1 99.

Definition leaf (i : string) (ply : Z) (fen : string) (uci san : option string)
  : Node.t :=
  Node.mk i ply fen uci san false None None false None None None [] [].

Definition e5 : Node.t := leaf "e5" 2 "fen-e4-e5" (Some "e7e5") (Some "e5").

Definition e4 : Node.t :=
  Node.set_children [e5] (leaf "e4" 1 "fen-e4" (Some "e2e4") (Some "e4")).

Definition d4 : Node.t :=
  Node.mk "d4" 1 "fen-d4" (Some "d2d4") (Some "d4") false None None false
    None None None ["the queen's pawn"] [].

Definition root : Node.t :=
  Node.set_children [e4; d4] (leaf "" 0 "fen-start" None None).

Definition env : Env.t := Env.mk false false false true "standard" true false.

Definition native : Ceval.t := Ceval.mk true true true 1 99.

Definition eval (fen : string) (depth maxDepth : Z) : ClientEval.t :=
  ClientEval.mk fen depth (Some maxDepth) 1000 (Some 20) None ["e2e4"] false
    false.

(** Evaluation objects 0, 1, ... with the contents listed. *)
Definition objects (l : list ClientEval.t) : Evals :=
  fun o => nth o l (eval "" 0 0).

(** A controller on [root] with the cursor at the root, the board attached
    and no overlay. *)
Definition ctrl : Ctrl.t :=
  Ctrl.mk env root [] native true false false false false false
    None None None false false (objects []).
End Sample.

(** ** Paths and tree lookup *)

Lemma path_eqb_refl (p : Path) : path_eqb p p = true.
Proof.
  induction p as [|a p IH]; simpl; [reflexivity|].
  now rewrite String.eqb_refl, IH.
Qed.

Lemma path_eqb_eq (p q : Path) : path_eqb p q = true <-> p = q.
Proof.
  split.
  - revert q; induction p as [|a p IH]; intros [|b q] H; simpl in H;
      try discriminate; [reflexivity|].
    apply andb_true_iff in H as [Hab Hpq].
    apply String.eqb_eq in Hab. apply IH in Hpq. now subst.
  - intros ->. apply path_eqb_refl.
Qed.

Lemma path_eqb_neq (p q : Path) : p <> q -> path_eqb p q = false.
Proof.
  intros H. destruct (path_eqb p q) eqn:E; [|reflexivity].
  apply path_eqb_eq in E. contradiction.
Qed.

Lemma keeps_shape_id f : keeps_shape f -> keeps_id f.
Proof. intros H n. apply H. Qed.

Lemma childById_updateChild i g cs :
  keeps_id g ->
  treeOps.childById i (Tree.updateChild i g cs)
  = option_map g (treeOps.childById i cs).
Proof.
  intros Hg. unfold treeOps.childById.
  induction cs as [|c r IH]; simpl; [reflexivity|].
  destruct (String.eqb (Node.id c) i) eqn:E; simpl.
  - now rewrite Hg, E.
  - now rewrite E.
Qed.

Lemma updateAt_keeps_id p f : keeps_id f -> keeps_id (Tree.updateAt p f).
Proof.
  intros Hf. destruct p; intros n; simpl; [apply Hf | reflexivity].
Qed.

Lemma nodeAtPath_updateAt p f :
  keeps_id f ->
  forall root n,
    Tree.nodeAtPath root p = Some n ->
    Tree.nodeAtPath (Tree.updateAt p f root) p = Some (f n).
Proof.
  intros Hf. induction p as [|i q IH]; intros root n H; simpl in *.
  - now inversion H.
  - rewrite childById_updateChild by now apply updateAt_keeps_id.
    destruct (treeOps.childById i (Node.children root)) as [c|]; simpl;
      [now apply IH | discriminate].
Qed.

Lemma nodeAtPath_updateAt_none p f :
  keeps_id f ->
  forall root,
    Tree.nodeAtPath root p = None ->
    Tree.nodeAtPath (Tree.updateAt p f root) p = None.
Proof.
  intros Hf. induction p as [|i q IH]; intros root H; simpl in *.
  - discriminate.
  - rewrite childById_updateChild by now apply updateAt_keeps_id.
    destruct (treeOps.childById i (Node.children root)) as [c|]; simpl;
      [now apply IH | reflexivity].
Qed.

Lemma last_cons_getNodeList root p n :
  treeOps.last (n :: Tree.getNodeList root p)
  = treeOps.last (Tree.getNodeList root p).
Proof.
  assert (H : exists l, Tree.getNodeList root p = root :: l)
    by (destruct p; simpl; eauto).
  destruct H as [l ->]. unfold treeOps.last.
  change (rev (n :: root :: l)) with (rev (root :: l) ++ [n]).
  destruct (rev (root :: l)) as [|x r] eqn:E; [|reflexivity].
  apply (f_equal (@List.length Node.t)) in E.
  simpl in E. rewrite length_app in E. simpl in E. lia.
Qed.

Lemma last_getNodeList root p :
  treeOps.last (Tree.getNodeList root p) = Some (walk root p).
Proof.
  revert root. induction p as [|i q IH]; intros root; [reflexivity|].
  cbn [Tree.getNodeList walk].
  destruct (treeOps.childById i (Node.children root)) as [c|];
    [|reflexivity].
  now rewrite last_cons_getNodeList.
Qed.

Lemma node_walk s : Ctrl.node s = walk (Ctrl.tree s) (Ctrl.path s).
Proof. unfold Ctrl.node, Ctrl.nodeList. now rewrite last_getNodeList. Qed.

Lemma mutateLast_keeps_id p f : keeps_id f -> keeps_id (mutateLast p f).
Proof.
  intros Hf. destruct p as [|i q]; intros n; simpl; [apply Hf|].
  destruct (treeOps.childById i (Node.children n)); [reflexivity | apply Hf].
Qed.

Lemma walk_mutateLast p f :
  keeps_shape f ->
  forall root, walk (mutateLast p f root) p = f (walk root p).
Proof.
  intros Hf. induction p as [|i q IH]; intros root; [reflexivity|].
  cbn [mutateLast walk].
  destruct (treeOps.childById i (Node.children root)) as [c|] eqn:E.
  - cbn [Node.set_children Node.children].
    rewrite childById_updateChild
      by (apply mutateLast_keeps_id, keeps_shape_id, Hf).
    rewrite E. simpl. apply IH.
  - destruct (Hf root) as [_ Hc]. now rewrite Hc, E.
Qed.

Lemma node_mutate_node f s :
  keeps_shape f -> Ctrl.node (mutate_node f s) = f (Ctrl.node s).
Proof.
  intros Hf. rewrite !node_walk. destruct s; simpl.
  now apply walk_mutateLast.
Qed.

(** ** Terminal positions and the analysis gate *)

(** [gameOver()] without an argument is the verdict on the node the
    cursor rests on. *)
Lemma gameOver_current (s : Ctrl.t) :
  gameOver None s = gameOver (Some (Ctrl.node s)) s.
Proof. reflexivity. Qed.

Lemma gameOver_of_over (n : Node.t) :
  gameOver_of n <> NotOver
  <-> Node.dests n = Some "" /\ truthy_str (Node.drops n) = false.
Proof.
  unfold gameOver_of.
  destruct (Node.dests n) as [[|]|]; simpl;
    destruct (truthy_str (Node.drops n)); simpl;
    destruct (Node.check n);
    (split; [intros H | intros [H1 H2]]);
    try congruence; try (split; congruence);
    try (exfalso; apply H; reflexivity).
Qed.

(** C9: [gameOver(n)] is non-false exactly when [n.dests] is the empty
    string and [n.drops] is falsy; it is then ['checkmate'] when [n.check]
    is set and ['draw'] otherwise; [gameOver()] is [gameOver] of the
    current node; and [canUseCeval()] is true exactly when [gameOver()] is
    false and the current node is not flagged threefold - that is, exactly
    when the current node is not flagged threefold and either its [dests]
    is not the empty string or it has drops. *)
Theorem gameOver_terminal_state (n : Node.t) (s : Ctrl.t) :
  (gameOver (Some n) s <> NotOver
   <-> Node.dests n = Some "" /\ truthy_str (Node.drops n) = false)
  /\ (gameOver (Some n) s <> NotOver ->
      gameOver (Some n) s = if Node.check n then Checkmate else Draw)
  /\ gameOver None s = gameOver (Some (Ctrl.node s)) s
  /\ (gameOver None s <> NotOver
      <-> Node.dests (Ctrl.node s) = Some ""
          /\ truthy_str (Node.drops (Ctrl.node s)) = false)
  /\ (canUseCeval s = true
      <-> gameOver None s = NotOver /\ Node.threefold (Ctrl.node s) = false)
  /\ (canUseCeval s = true
      <-> ~ (Node.dests (Ctrl.node s) = Some ""
             /\ truthy_str (Node.drops (Ctrl.node s)) = false)
          /\ Node.threefold (Ctrl.node s) = false).
Proof.
  assert (Hgate : canUseCeval s = true
                  <-> gameOver None s = NotOver
                      /\ Node.threefold (Ctrl.node s) = false).
  { unfold canUseCeval. rewrite andb_true_iff, !negb_true_iff.
    destruct (gameOver None s); simpl; intuition congruence. }
  split; [apply gameOver_of_over|].
  split.
  { unfold gameOver, gameOver_of.
    destruct (_ || _); [congruence|]. reflexivity. }
  split; [reflexivity|].
  split; [apply gameOver_of_over|].
  split; [exact Hgate|].
  rewrite Hgate. unfold gameOver.
  pose proof (gameOver_of_over (Ctrl.node s)) as Hover.
  destruct (gameOver_of (Ctrl.node s)); split; intros [H1 H2];
    (split; [|exact H2]); try reflexivity; try congruence.
  - intros H. apply Hover in H. congruence.
  - exfalso. apply H1, Hover. discriminate.
  - exfalso. apply H1, Hover. discriminate.
Qed.

(** ** Evaluation cache eligibility *)

(** C6: outside a study [canPut(n)] is false whenever [n.ply >= 10]; and
    [canPut(n)] holds only when [evalPut] is set, [canGet(n)] holds and,
    outside a study, the node's client evaluation has no mate (its [mate]
    is absent or zero) and a centipawn magnitude below 99. *)
Theorem canPut_eligibility (s : Ctrl.t) (n : Node.t) :
  (Env.opts_study (Ctrl.env s) = false -> 10 <= Node.ply n ->
   canPut s n = Some false)
  /\ (canPut s n = Some true ->
      Env.evalPut (Ctrl.env s) = true
      /\ canEvalGet s n = true
      /\ (Env.opts_study (Ctrl.env s) = false ->
          exists o v,
            Node.ceval n = Some o
            /\ truthy_num (ClientEval.mate (Ctrl.evals s o)) = false
            /\ ClientEval.cp (Ctrl.evals s o) = Some v
            /\ Z.abs v < 99)).
Proof.
  unfold canPut, canEvalGet. split.
  - intros Hs Hp. rewrite Hs. simpl.
    assert (E : (Node.ply n <? 10) = false) by (apply Z.ltb_ge; lia).
    rewrite E. simpl. now destruct (Env.evalPut (Ctrl.env s)).
  - destruct (Env.evalPut (Ctrl.env s)); simpl; [|discriminate].
    destruct (Env.opts_study (Ctrl.env s)) eqn:Es; simpl.
    + intros _. repeat split. discriminate.
    + destruct (Node.ply n <? 10) eqn:Ep; simpl; [|discriminate].
      destruct (Node.ceval n) as [o|]; [|discriminate].
      cbv zeta. intros H. inversion H as [H'].
      apply andb_true_iff in H' as [Hm Hc].
      repeat split.
      intros _.
      destruct (ClientEval.cp (Ctrl.evals s o)) as [v|] eqn:Ev; [|discriminate].
      exists o, v. repeat split.
      * now apply negb_true_iff.
      * exact Ev.
      * now apply Z.ltb_lt.
Qed.

(** A node at ply 12 with a quiet evaluation, and one at ply 3. *)
Lemma canPut_eligibility_witness :
  let s := Ctrl.set_evals (Sample.objects [Sample.eval "f" 22 22]) Sample.ctrl in
  canPut s (Node.set_ceval (Some 0%nat) (Sample.leaf "x" 12 "f" None None))
  = Some false
  /\ Env.evalPut (Ctrl.env s) = true.
Proof.
  cbv zeta. split.
  - apply (canPut_eligibility
             (Ctrl.set_evals (Sample.objects [Sample.eval "f" 22 22]) Sample.ctrl)
             (Node.set_ceval (Some 0%nat) (Sample.leaf "x" 12 "f" None None)));
      [reflexivity | simpl; lia].
  - apply (canPut_eligibility
             (Ctrl.set_evals (Sample.objects [Sample.eval "f" 22 22]) Sample.ctrl)
             (Node.set_ceval (Some 0%nat) (Sample.leaf "x" 3 "f" None None))).
    reflexivity.
Defined.

(** ** Starting the engine *)

(** C8 as stated fails: with the engine disabled [startCeval]'s body makes
    no call at all, so the engine is not stopped. *)
Lemma startCeval_disabled_no_stop :
  let s := Ctrl.set_ceval (Ceval.mk false true true 1 99) Sample.ctrl in
  Ceval.enabled (Ctrl.ceval s) && canUseCeval s = false
  /\ trace (startCeval_body s) = []
  /\ ~ In CevalStop (trace (startCeval_body s)).
Proof.
  cbv zeta. repeat split. simpl. tauto.
Qed.

(** C8, amended: when the body of [startCeval] runs with the engine enabled,
    it dispatches a work item for the current path, node list and threat
    mode and fetches the cached evaluation of that path if the node is
    neither terminal nor threefold, and stops the engine otherwise; with
    the engine disabled it does nothing. *)
Theorem startCeval_body_dispatch (s : Ctrl.t) :
  let r := startCeval_body s in
  outcome r = Returned
  /\ final r = s
  /\ (Ceval.enabled (Ctrl.ceval s) = true -> canUseCeval s = true ->
      trace r = [CevalStart (Ctrl.path s) (Ctrl.nodeList s) (Ctrl.threatMode s);
                 EvalCacheFetch (Ctrl.path s) (Ceval.multiPv (Ctrl.ceval s))])
  /\ (Ceval.enabled (Ctrl.ceval s) = true -> canUseCeval s = false ->
      trace r = [CevalStop])
  /\ (Ceval.enabled (Ctrl.ceval s) = false -> trace r = []).
Proof.
  unfold startCeval_body, read, when. cbv zeta.
  destruct (Ceval.enabled (Ctrl.ceval s)), (canUseCeval s);
    repeat split; intros; try discriminate; reflexivity.
Qed.

Lemma startCeval_body_dispatch_witness :
  trace (startCeval_body Sample.ctrl)
  = [CevalStart [] [Sample.root] false; EvalCacheFetch [] 1].
Proof.
  apply (startCeval_body_dispatch Sample.ctrl); reflexivity.
Defined.

(** ** Engine crashes *)

(** Running a handler symbolically: the combinators are unfolded, the
    methods they combine are not. *)
Ltac run_handler :=
  cbv beta iota zeta
      delta [read seq call when assign skip throw outcome final trace].

Lemma onCrash_fallback cevalCtrl (s : Ctrl.t) :
  Ceval.pnaclSupported (Ctrl.ceval s) = true ->
  (forall ce, Node.ceval (Ctrl.node s) = Some ce ->
              ClientEval.depth (Ctrl.evals s ce) < 20
              \/ ClientEval.retried (Ctrl.evals s ce) = true) ->
  crash_fallback cevalCtrl (onCrash cevalCtrl s).
Proof.
  intros Hp H.
  assert (E : match Node.ceval (Ctrl.node s) with
              | Some ce => (20 <=? ClientEval.depth (Ctrl.evals s ce))
                           && negb (ClientEval.retried (Ctrl.evals s ce))
              | None => false
              end = false).
  { destruct (Node.ceval (Ctrl.node s)) as [ce|]; [|reflexivity].
    destruct (H ce eq_refl) as [Hd|Hr].
    - apply andb_false_iff. left. apply Z.leb_gt. lia.
    - rewrite Hr. apply andb_false_r. }
  unfold crash_fallback, onCrash, instanciateCeval, startCeval.
  run_handler. rewrite Hp.
  destruct (Node.ceval (Ctrl.node s)) as [ce|]; [rewrite E|];
    (split; [reflexivity|]);
    eexists; (split; [|split; reflexivity]); reflexivity.
Qed.

Lemma onCrash_tolerated cevalCtrl (s : Ctrl.t) (ce : Obj) :
  Ceval.pnaclSupported (Ctrl.ceval s) = true ->
  Node.ceval (Ctrl.node s) = Some ce ->
  20 <= ClientEval.depth (Ctrl.evals s ce) ->
  ClientEval.retried (Ctrl.evals s ce) = false ->
  crash_tolerated s ce (onCrash cevalCtrl s).
Proof.
  intros Hp Hc Hd Hr.
  assert (E : (20 <=? ClientEval.depth (Ctrl.evals s ce)) = true)
    by (apply Z.leb_le; lia).
  unfold crash_tolerated, onCrash. run_handler.
  rewrite Hp, Hc, Hr, E. cbn [andb negb app].
  split; [reflexivity|]. split; [exact Hc|].
  split; [cbn; unfold write; now rewrite Nat.eqb_refl|].
  split; [intros o; reflexivity|].
  repeat split.
Qed.

(** C10: if the engine reports [pnaclSupported] as false, the crash
    callback only logs: the controller state, and with it the node, its
    retried flag and the engine, is unchanged, and no call is made to the
    engine. *)
Theorem onCrash_without_pnacl cevalCtrl (s : Ctrl.t) :
  Ceval.pnaclSupported (Ctrl.ceval s) = false ->
  onCrash cevalCtrl s = mkResult Returned s [ConsoleLog].
Proof.
  intros Hp. unfold onCrash. run_handler. rewrite Hp. reflexivity.
Qed.

Lemma onCrash_without_pnacl_witness :
  let s := Ctrl.set_ceval (Ceval.mk true true false 1 99) Sample.ctrl in
  onCrash Sample.cevalCtrl s = mkResult Returned s [ConsoleLog].
Proof.
  apply (onCrash_without_pnacl Sample.cevalCtrl
           (Ctrl.set_ceval (Ceval.mk true true false 1 99) Sample.ctrl)).
  reflexivity.
Defined.

(** C4 as stated fails twice.  On an engine without [pnaclSupported], a
    crash on a node that has no evaluation does not fall back to the
    failsafe engine.  And the retried flag is on the evaluation object, not
    on the node: on [e4], after a tolerated crash at depth 22, a deeper
    evaluation replaces the node's evaluation, and a second crash on [e4],
    now at depth 23, is tolerated again. *)
Lemma onCrash_fallback_not_always :
  (let s := Ctrl.set_ceval (Ceval.mk true true false 1 99) Sample.ctrl in
   Node.ceval (Ctrl.node s) = None
   /\ ~ crash_fallback Sample.cevalCtrl (onCrash Sample.cevalCtrl s))
  /\ (let s :=
        Ctrl.set_evals
          (Sample.objects [Sample.eval "fen-e4" 22 22; Sample.eval "fen-e4" 23 23])
          (Ctrl.set_path ["e4"]
             (Ctrl.set_tree
                (Tree.updateAt ["e4"] (Node.set_ceval (Some 0%nat)) Sample.root)
                Sample.ctrl)) in
      let s1 := final (onCrash Sample.cevalCtrl s) in
      let s2 := final (onNewCeval isEvalBetter_spec 1%nat ["e4"] false s1) in
      crash_tolerated s 0%nat (onCrash Sample.cevalCtrl s)
      /\ Ctrl.path s2 = ["e4"]
      /\ option_map ClientEval.depth (storedCeval s2 ["e4"]) = Some 23
      /\ Ctrl.ceval s2 = Ctrl.ceval s
      /\ ~ crash_fallback Sample.cevalCtrl (onCrash Sample.cevalCtrl s2)).
Proof.
  cbv zeta. split.
  - split; [reflexivity|].
    intros [_ [cfg [_ [_ H]]]]. discriminate H.
  - split.
    { apply onCrash_tolerated; [reflexivity | reflexivity | simpl; lia
                               | reflexivity]. }
    split; [reflexivity|]. split; [reflexivity|]. split; [reflexivity|].
    intros [_ [cfg [_ [_ H]]]]. discriminate H.
Qed.

(** C4, amended: on a crash of an engine that reports [pnaclSupported], if
    the current node's client evaluation exists with depth at least 20 and
    its retried flag unset, that evaluation is marked retried and the
    engine is kept, and a second crash on the node, still holding that
    evaluation, falls back; otherwise - no evaluation, depth below 20 or
    the flag set - the engine is re-instantiated with [failsafe] set and
    analysis is restarted. *)
Theorem onCrash_two_strikes cevalCtrl (s : Ctrl.t) :
  Ceval.pnaclSupported (Ctrl.ceval s) = true ->
  (forall ce,
      Node.ceval (Ctrl.node s) = Some ce ->
      20 <= ClientEval.depth (Ctrl.evals s ce) ->
      ClientEval.retried (Ctrl.evals s ce) = false ->
      crash_tolerated s ce (onCrash cevalCtrl s)
      /\ crash_fallback cevalCtrl
           (onCrash cevalCtrl (final (onCrash cevalCtrl s))))
  /\ ((forall ce, Node.ceval (Ctrl.node s) = Some ce ->
                  ClientEval.depth (Ctrl.evals s ce) < 20
                  \/ ClientEval.retried (Ctrl.evals s ce) = true) ->
      crash_fallback cevalCtrl (onCrash cevalCtrl s)).
Proof.
  intros Hp. split.
  - intros ce Hc Hd Hr.
    pose proof (onCrash_tolerated cevalCtrl s ce Hp Hc Hd Hr) as Ht.
    split; [exact Ht|].
    destruct Ht as (_ & Hn & Hret & _ & _ & He & _).
    apply onCrash_fallback.
    + now rewrite He.
    + intros ce' Hce'. rewrite Hn in Hce'. inversion Hce'; subst ce'.
      now right.
  - now apply onCrash_fallback.
Qed.

(** The engine crashes twice at depth 22 on the node [e4]. *)
Lemma onCrash_two_strikes_witness :
  let s :=
    Ctrl.set_evals (Sample.objects [Sample.eval "fen-e4" 22 22])
      (Ctrl.set_path ["e4"]
         (Ctrl.set_tree
            (Tree.updateAt ["e4"] (Node.set_ceval (Some 0%nat)) Sample.root)
            Sample.ctrl)) in
  crash_tolerated s 0%nat (onCrash Sample.cevalCtrl s)
  /\ crash_fallback Sample.cevalCtrl
       (onCrash Sample.cevalCtrl (final (onCrash Sample.cevalCtrl s))).
Proof.
  cbv zeta.
  apply (onCrash_two_strikes Sample.cevalCtrl
           (Ctrl.set_evals (Sample.objects [Sample.eval "fen-e4" 22 22])
              (Ctrl.set_path ["e4"]
                 (Ctrl.set_tree
                    (Tree.updateAt ["e4"] (Node.set_ceval (Some 0%nat))
                       Sample.root)
                    Sample.ctrl))));
    [reflexivity | reflexivity | simpl; lia | reflexivity].
Defined.

(** ** Reasoning about handlers *)

Section Algebra.
Context {A : Type} (g : Ctrl.t -> A) (P : Event -> bool).

Lemma preserves_skip : preserves g skip.
Proof. intro s. reflexivity. Qed.

Lemma preserves_throw : preserves g throw.
Proof. intro s. reflexivity. Qed.

Lemma preserves_call e : preserves g (call e).
Proof. intro s. reflexivity. Qed.

Lemma preserves_assign f : (forall s, g (f s) = g s) -> preserves g (assign f).
Proof. intros H s. apply H. Qed.

Lemma preserves_seq h1 h2 :
  preserves g h1 -> preserves g h2 -> preserves g (h1 ;; h2).
Proof.
  intros H1 H2 s. unfold seq.
  destruct (outcome (h1 s)); cbn [final]; [|apply H1].
  now rewrite H2, H1.
Qed.

Lemma preserves_read {B : Type} (f : Ctrl.t -> B) k :
  (forall b, preserves g (k b)) -> preserves g (read f k).
Proof. intros H s. apply H. Qed.

Lemma preserves_when b h : preserves g h -> preserves g (when b h).
Proof. destruct b; [trivial | intros _; apply preserves_skip]. Qed.

Lemma quiet_skip : quiet P skip.
Proof. intro s. reflexivity. Qed.

Lemma quiet_throw : quiet P throw.
Proof. intro s. reflexivity. Qed.

Lemma quiet_assign f : quiet P (assign f).
Proof. intro s. reflexivity. Qed.

Lemma quiet_call e : P e = false -> quiet P (call e).
Proof. intros H s. simpl. now rewrite H. Qed.

Lemma quiet_seq h1 h2 : quiet P h1 -> quiet P h2 -> quiet P (h1 ;; h2).
Proof.
  intros H1 H2 s. unfold seq.
  destruct (outcome (h1 s)); cbn [trace]; [|apply H1].
  now rewrite filter_app, H1, H2.
Qed.

Lemma quiet_read {B : Type} (f : Ctrl.t -> B) k :
  (forall b, quiet P (k b)) -> quiet P (read f k).
Proof. intros H s. apply H. Qed.

Lemma quiet_when b h : quiet P h -> quiet P (when b h).
Proof. destruct b; [trivial | intros _; apply quiet_skip]. Qed.
End Algebra.

Lemma returns_skip : returns skip.
Proof. intro s. reflexivity. Qed.

Lemma returns_call e : returns (call e).
Proof. intro s. reflexivity. Qed.

Lemma returns_assign f : returns (assign f).
Proof. intro s. reflexivity. Qed.

Lemma returns_seq h1 h2 : returns h1 -> returns h2 -> returns (h1 ;; h2).
Proof.
  intros H1 H2 s. unfold seq. rewrite H1. cbn [outcome]. apply H2.
Qed.

Lemma returns_read {B : Type} (f : Ctrl.t -> B) k :
  (forall b, returns (k b)) -> returns (read f k).
Proof. intros H s. apply H. Qed.

Lemma returns_when b h : returns h -> returns (when b h).
Proof. destruct b; [trivial | intros _; apply returns_skip]. Qed.

(** A sequence that returned ran both halves, one after the other. *)
Lemma seq_returned h1 h2 s :
  outcome ((h1 ;; h2) s) = Returned ->
  outcome (h1 s) = Returned
  /\ outcome (h2 (final (h1 s))) = Returned
  /\ trace ((h1 ;; h2) s) = trace (h1 s) ++ trace (h2 (final (h1 s)))
  /\ final ((h1 ;; h2) s) = final (h2 (final (h1 s))).
Proof.
  unfold seq. destruct (outcome (h1 s)) eqn:E; cbn; intros H.
  - repeat split. exact H.
  - rewrite E in H. discriminate.
Qed.

Lemma seq_after_returning h1 h2 s :
  outcome (h1 s) = Returned ->
  (h1 ;; h2) s
  = mkResult (outcome (h2 (final (h1 s)))) (final (h2 (final (h1 s))))
      (trace (h1 s) ++ trace (h2 (final (h1 s)))).
Proof. intros H. unfold seq. now rewrite H. Qed.

Ltac preserves_tac :=
  repeat first
    [ apply preserves_seq
    | apply preserves_read; intro
    | apply preserves_when
    | apply preserves_call
    | apply preserves_skip
    | apply preserves_throw
    | apply preserves_assign; intros []; reflexivity
    | match goal with
      | |- preserves _ (match ?x with _ => _ end) => destruct x
      end ].

Ltac quiet_tac :=
  repeat first
    [ apply quiet_seq
    | apply quiet_read; intro
    | apply quiet_when
    | apply quiet_call; reflexivity
    | apply quiet_skip
    | apply quiet_throw
    | apply quiet_assign
    | match goal with
      | |- quiet _ (match ?x with _ => _ end) => destruct x
      end ].

Ltac returns_tac :=
  repeat first
    [ apply returns_seq
    | apply returns_read; intro
    | apply returns_when
    | apply returns_call
    | apply returns_skip
    | apply returns_assign
    | match goal with
      | |- returns (match ?x with _ => _ end) => destruct x
      end ].

(** *** The board refresh *)

Lemma showGround_returns : returns showGround.
Proof. unfold showGround, setAutoShapes. returns_tac. Qed.

Lemma showGround_final s : final (showGround s) = s.
Proof.
  apply (preserves_seq (fun s => s)); unfold setAutoShapes; preserves_tac.
Qed.

Lemma showGround_renders s :
  Ctrl.chessground s = true ->
  In (CgSet (Node.fen (Ctrl.node s))) (trace (showGround s)).
Proof.
  intros H. unfold showGround, setAutoShapes. run_handler.
  destruct (negb (defined (Node.dests (Ctrl.node s))));
    rewrite H; destruct (Node.shapes (Ctrl.node s)); simpl; tauto.
Qed.

(** ** Jumps *)

Lemma set_path_same s : Ctrl.set_path (Ctrl.path s) s = s.
Proof. destruct s; reflexivity. Qed.

Ltac unfold_jump :=
  unfold jump_with, setPath, showGround, setAutoShapes, startCeval, autoScroll.

Lemma jump_sets_path p s : Ctrl.path (final (jump p s)) = p.
Proof.
  unfold jump, read. generalize (negb (path_eqb p (Ctrl.path s))) as b.
  intros b. unfold jump_with, setPath. unfold seq at 1.
  cbn [assign outcome final].
  match goal with
  | |- Ctrl.path (final (?h ?s')) = _ =>
      transitivity (Ctrl.path s'); [|reflexivity];
      assert (Hp : preserves Ctrl.path h); [|apply Hp]
  end.
  unfold_jump. preserves_tac.
Qed.

Lemma jump_preserves_tree p : preserves Ctrl.tree (jump p).
Proof. unfold jump. unfold_jump. preserves_tac. Qed.

Lemma jump_unchanged_quiet p : quiet cycle_event (jump_with false p).
Proof. unfold_jump. cbn [when]. quiet_tac. Qed.

Lemma jump_unchanged_returns p : returns (jump_with false p).
Proof. unfold_jump. cbn [when]. returns_tac. Qed.

Lemma jump_unchanged_threatMode p : preserves Ctrl.threatMode (jump_with false p).
Proof. unfold_jump. cbn [when]. preserves_tac. Qed.

Lemma jump_unchanged_ceval p : preserves Ctrl.ceval (jump_with false p).
Proof. unfold_jump. cbn [when]. preserves_tac. Qed.

Lemma jump_unchanged_trace s :
  trace (jump_with false (Ctrl.path s) s)
  = trace (showGround s)
    ++ [ExplorerSetNode; CallUpdateHref; PromotionCancel]
    ++ (if Ctrl.music s then [MusicJump (Ctrl.node s)] else []).
Proof.
  unfold jump_with, setPath, autoScroll. cbn [when].
  unfold seq at 1. cbn [assign outcome final trace app].
  rewrite set_path_same.
  rewrite (seq_after_returning showGround) by apply showGround_returns.
  cbn [trace]. f_equal. rewrite showGround_final.
  run_handler. destruct s as [? ? ? ? ? ? ? ? ? []]; reflexivity.
Qed.

Ltac unseq H :=
  lazymatch type of H with
  | outcome ((?a ;; ?b) ?s) = Returned =>
      let Ha := fresh "Ha" in
      let Hb := fresh "Hb" in
      let Ht := fresh "Ht" in
      destruct (seq_returned a b s H) as (Ha & Hb & Ht & _);
      rewrite Ht; clear Ht H; unseq Ha; unseq Hb
  | _ => clear H
  end.

Ltac quiet_leaves :=
  repeat match goal with
    | |- context [filter ?P (trace (?h ?s))] =>
        let Q := fresh "Q" in
        assert (Q : quiet P h)
          by (unfold showGround, setAutoShapes; quiet_tac);
        rewrite (Q s); clear Q
    end.

Ltac through_finals g :=
  repeat match goal with
    | |- context [g (final (?h ?x))] =>
        let Q := fresh "Q" in
        assert (Q : preserves g h)
          by (unfold showGround, setAutoShapes; preserves_tac);
        rewrite (Q x); clear Q
    end.

Ltac count_calls Hret :=
  unfold occurrences; unseq Hret; rewrite !filter_app, !length_app;
  quiet_leaves.

Lemma jump_changed_once p s :
  outcome (jump_with true p s) = Returned ->
  let t := trace (jump_with true p s) in
  occurrences is_CevalStop t = 1%nat
  /\ occurrences is_CallStartCeval t = 1%nat
  /\ occurrences is_RetroOnJump t = (if Ctrl.retro s then 1 else 0)%nat
  /\ occurrences is_PracticeOnJump t = (if Ctrl.practice s then 1 else 0)%nat
  /\ occurrences is_StudyOnJump t = (if Ctrl.study s then 1 else 0)%nat.
Proof.
  cbv zeta.
  unfold jump_with, setPath, startCeval, autoScroll. cbn [when]. intros Hret.
  repeat split.
  - count_calls Hret. reflexivity.
  - count_calls Hret. reflexivity.
  - count_calls Hret. unfold read at 1. through_finals Ctrl.retro.
    destruct (Ctrl.retro s); reflexivity.
  - count_calls Hret. unfold read at 1. through_finals Ctrl.practice.
    destruct (Ctrl.practice s); reflexivity.
  - count_calls Hret. unfold read at 1. through_finals Ctrl.study.
    destruct (Ctrl.study s); reflexivity.
Qed.

Lemma jump_again_unchanged p s :
  jump p (final (jump p s)) = jump_with false p (final (jump p s)).
Proof.
  unfold jump at 1. unfold read.
  now rewrite jump_sets_path, path_eqb_refl.
Qed.

Lemma filter_within (P Q : Event -> bool) (l : list Event) :
  (forall e, P e = true -> Q e = true) ->
  filter Q l = [] -> filter P l = [].
Proof.
  intros HPQ. induction l as [|e l IH]; simpl; [reflexivity|].
  destruct (P e) eqn:EP.
  - now rewrite (HPQ e EP).
  - destruct (Q e); [discriminate | exact IH].
Qed.

Lemma occurrences_app P l1 l2 :
  filter P l2 = [] -> occurrences P (l1 ++ l2) = occurrences P l1.
Proof.
  intros H. unfold occurrences. rewrite filter_app, H, app_nil_r. reflexivity.
Qed.

(** C1: a jump to the path that is already current re-renders the board
    ([showGround] runs, and sets the attached board) but plays no sound,
    leaves threat mode and the engine alone and notifies neither study nor
    retrospection nor practice; jumping twice in a row to a path triggers
    the engine stop and restart and each attached overlay's notification
    exactly once. *)
Theorem jump_idempotent (p : Path) (s : Ctrl.t) :
  let r1 := jump p s in
  let r2 := jump p (final r1) in
  (Ctrl.path s = p ->
   outcome r1 = Returned
   /\ trace r1
      = trace (showGround s)
        ++ [ExplorerSetNode; CallUpdateHref; PromotionCancel]
        ++ (if Ctrl.music s then [MusicJump (Ctrl.node s)] else [])
   /\ (Ctrl.chessground s = true ->
       In (CgSet (Node.fen (Ctrl.node s))) (trace r1))
   /\ filter cycle_event (trace r1) = []
   /\ Ctrl.threatMode (final r1) = Ctrl.threatMode s
   /\ Ctrl.ceval (final r1) = Ctrl.ceval s)
  /\ filter cycle_event (trace r2) = []
  /\ (Ctrl.path s <> p ->
      outcome r1 = Returned ->
      let t := trace r1 ++ trace r2 in
      occurrences is_CevalStop t = 1%nat
      /\ occurrences is_CallStartCeval t = 1%nat
      /\ occurrences is_RetroOnJump t = (if Ctrl.retro s then 1 else 0)%nat
      /\ occurrences is_PracticeOnJump t = (if Ctrl.practice s then 1 else 0)%nat
      /\ occurrences is_StudyOnJump t = (if Ctrl.study s then 1 else 0)%nat).
Proof.
  cbv zeta.
  assert (Hq : filter cycle_event (trace (jump p (final (jump p s)))) = []).
  { rewrite jump_again_unchanged. apply jump_unchanged_quiet. }
  split; [|split; [exact Hq|]].
  - intros <-. unfold jump, read. rewrite path_eqb_refl. cbn [negb].
    split; [apply jump_unchanged_returns|].
    split; [apply jump_unchanged_trace|].
    split.
    { intros Hcg. rewrite jump_unchanged_trace. apply in_or_app. left.
      now apply showGround_renders. }
    split; [apply jump_unchanged_quiet|].
    split; [apply jump_unchanged_threatMode | apply jump_unchanged_ceval].
  - intros Hne Hret.
    assert (Hq' : forall P, (forall e, P e = true -> cycle_event e = true) ->
                  filter P (trace (jump p (final (jump p s)))) = []).
    { intros P HP. now apply (filter_within P cycle_event). }
    rewrite !occurrences_app by (apply Hq'; intros []; easy).
    revert Hret. unfold jump, read.
    rewrite (path_eqb_neq p (Ctrl.path s)) by congruence. cbn [negb].
    apply jump_changed_once.
Qed.

(** From the root of the sample tree: a jump to [e4] and again to [e4];
    and a jump to the root, which is current. *)
Lemma jump_idempotent_witness :
  let r1 := jump ["e4"] Sample.ctrl in
  let r2 := jump ["e4"] (final r1) in
  occurrences is_CevalStop (trace r1 ++ trace r2) = 1%nat
  /\ occurrences is_CallStartCeval (trace r1 ++ trace r2) = 1%nat
  /\ filter cycle_event (trace (jump [] Sample.ctrl)) = [].
Proof.
  cbv zeta.
  destruct (jump_idempotent ["e4"] Sample.ctrl) as (_ & _ & Hchanged).
  destruct (jump_idempotent [] Sample.ctrl) as (Hsame & _).
  split; [|split].
  - apply Hchanged; [discriminate | reflexivity].
  - apply Hchanged; [discriminate | reflexivity].
  - apply Hsame. reflexivity.
Defined.

(** *** Handlers that end on a given observation *)

Lemma establishes_after {A : Type} (g : Ctrl.t -> A) v h1 h2 :
  returns h1 -> establishes g v h2 -> establishes g v (h1 ;; h2).
Proof.
  intros H1 H2 s. rewrite seq_after_returning by apply H1. apply H2.
Qed.

Lemma establishes_before {A : Type} (g : Ctrl.t -> A) v h1 h2 :
  establishes g v h1 -> preserves g h2 -> establishes g v (h1 ;; h2).
Proof.
  intros H1 H2 s. unfold seq.
  destruct (outcome (h1 s)); cbn [final]; [|apply H1].
  now rewrite H2.
Qed.

Lemma jump_establishes_path p : establishes Ctrl.path p (jump p).
Proof. intro s. apply jump_sets_path. Qed.

Lemma userJump_establishes_path p : establishes Ctrl.path p (userJump p).
Proof.
  unfold userJump.
  apply establishes_after; [returns_tac|].
  apply establishes_after; [returns_tac|].
  intros s. unfold read at 1. destruct (Ctrl.practice s).
  - unfold read at 1.
    apply establishes_after; [returns_tac|].
    apply establishes_before; [apply jump_establishes_path | preserves_tac].
  - apply jump_sets_path.
Qed.

Lemma userJump_preserves_tree p : preserves Ctrl.tree (userJump p).
Proof. unfold userJump, jump. unfold_jump. preserves_tac. Qed.

(** ** Adding a node *)

Lemma addNode_success_truthy node p root newPath :
  fst (Tree.addNode node p root) = Some newPath ->
  truthy_path (Some newPath) = true.
Proof.
  unfold Tree.addNode. destruct (Tree.nodeAtPath root p); simpl;
    [|discriminate].
  intros H. inversion H. now destruct p.
Qed.

Lemma addNode_failure_tree node p root :
  fst (Tree.addNode node p root) = None ->
  snd (Tree.addNode node p root) = root.
Proof.
  unfold Tree.addNode. now destruct (Tree.nodeAtPath root p).
Qed.

Lemma set_tree_same s : Ctrl.set_tree (Ctrl.tree s) s = s.
Proof. destruct s; reflexivity. Qed.

(** C7: when the tree's [addNode] hands back the failure marker, the
    controller's [addNode] logs and redraws and nothing else: tree, cursor
    and every other field are as before; when it hands back a path, the
    controller jumps to that path on the grown tree. *)
Theorem addNode_recoverable (node : Node.t) (p : Path) (s : Ctrl.t) :
  (fst (Tree.addNode node p (Ctrl.tree s)) = None ->
   addNode node p s = mkResult Returned s [ConsoleLog; Redraw])
  /\ (forall newPath,
        fst (Tree.addNode node p (Ctrl.tree s)) = Some newPath ->
        let grown := Ctrl.set_tree (snd (Tree.addNode node p (Ctrl.tree s))) s in
        Ctrl.path (final (addNode node p s)) = newPath
        /\ Ctrl.tree (final (addNode node p s)) = Ctrl.tree grown
        /\ exists rest,
             trace (addNode node p s) = trace (jump newPath grown) ++ rest).
Proof.
  split.
  - intros H. unfold addNode, read.
    rewrite (addNode_failure_tree _ _ _ H), H. cbn [truthy_path negb].
    run_handler. now rewrite set_tree_same.
  - intros newPath H. cbv zeta.
    set (grown := Ctrl.set_tree _ s).
    assert (E : addNode node p s
                = (jump newPath ;;
                   call Redraw ;;
                   let* cg := Ctrl.chessground in
                   (if cg then call CgPlayPremove else throw)) grown).
    { unfold addNode. unfold read at 1.
      rewrite H, (addNode_success_truthy _ _ _ _ H). cbn [negb].
      unfold seq at 1. cbn [assign outcome final trace app].
      fold grown. now destruct ((_ ;; _) grown). }
    rewrite E. split; [|split].
    + apply (establishes_before Ctrl.path newPath (jump newPath));
        [apply jump_establishes_path | preserves_tac].
    + apply (preserves_seq Ctrl.tree);
        [apply jump_preserves_tree | preserves_tac].
    + unfold seq at 1. destruct (outcome (jump newPath grown)).
      * cbn [trace]. eexists. reflexivity.
      * exists []. now rewrite app_nil_r.
Qed.

(** Adding below a path that does not resolve, and adding [c5] below
    [e4]. *)
Lemma addNode_recoverable_witness :
  addNode (Sample.leaf "c5" 2 "fen-e4-c5" (Some "c7c5") (Some "c5")) ["c4"]
    Sample.ctrl
  = mkResult Returned Sample.ctrl [ConsoleLog; Redraw]
  /\ Ctrl.path
       (final
          (addNode (Sample.leaf "c5" 2 "fen-e4-c5" (Some "c7c5") (Some "c5"))
             ["e4"] Sample.ctrl))
     = ["e4"; "c5"].
Proof.
  destruct (addNode_recoverable
              (Sample.leaf "c5" 2 "fen-e4-c5" (Some "c7c5") (Some "c5"))
              ["c4"] Sample.ctrl) as [Hfail _].
  destruct (addNode_recoverable
              (Sample.leaf "c5" 2 "fen-e4-c5" (Some "c7c5") (Some "c5"))
              ["e4"] Sample.ctrl) as [_ Hok].
  split.
  - apply Hfail. reflexivity.
  - apply (Hok ["e4"; "c5"]). reflexivity.
Defined.

(** ** Deleting a subtree *)

(** C5 as stated fails twice.  With the cursor on [e4], deleting the
    commented node [d4] asks for confirmation and, once confirmed, leaves
    the cursor on [e4]; it does not move to the parent path of [d4].  And
    deleting at the root path asks for confirmation and, once confirmed,
    removes nothing: the root and the whole tree are still there. *)
Lemma deleteNode_claim_fails :
  (let s := Ctrl.set_path ["e4"] Sample.ctrl in
   let r := deleteNode true ["d4"] s in
   Tree.nodeAtPath (Ctrl.tree s) ["d4"] = Some Sample.d4
   /\ treeOps.comments (treeOps.countChildrenAndComments Sample.d4) = 1
   /\ hd_error (trace r) = Some (Confirm 1 1)
   /\ Tree.nodeAtPath (Ctrl.tree (final r)) ["d4"] = None
   /\ Ctrl.path (final r) = ["e4"]
   /\ Ctrl.path (final r) <> treePath.init ["d4"])
  /\ (let r := deleteNode true [] Sample.ctrl in
      Tree.nodeAtPath (Ctrl.tree Sample.ctrl) [] = Some Sample.root
      /\ (exists n c, hd_error (trace r) = Some (Confirm n c))
      /\ outcome r = Returned
      /\ Tree.nodeAtPath (Ctrl.tree (final r)) [] = Some Sample.root
      /\ Ctrl.tree (final r) = Sample.root).
Proof.
  cbv zeta. split.
  - repeat split. discriminate.
  - split; [reflexivity|]. split; [eexists; eexists; reflexivity|].
    repeat split.
Qed.

Lemma nodeAtPath_app root q i :
  Tree.nodeAtPath root (q ++ [i])
  = match Tree.nodeAtPath root q with
    | Some n => treeOps.childById i (Node.children n)
    | None => None
    end.
Proof.
  revert root. induction q as [|j q IH]; intros root; simpl.
  - now destruct (treeOps.childById i (Node.children root)).
  - destruct (treeOps.childById j (Node.children root)); [apply IH | reflexivity].
Qed.

Lemma childById_removeChild i n :
  treeOps.childById i (Node.children (Tree.removeChild i n)) = None.
Proof.
  unfold Tree.removeChild, treeOps.childById. cbn [Node.set_children Node.children].
  induction (Node.children n) as [|c r IH]; simpl; [reflexivity|].
  destruct (String.eqb (Node.id c) i) eqn:E; simpl; [exact IH|].
  now rewrite E.
Qed.

Lemma path_init_last (p : Path) :
  p <> [] ->
  exists i, treePath.last p = Some i /\ p = treePath.init p ++ [i].
Proof.
  intros Hp. destruct (exists_last Hp) as [q [i ->]].
  exists i. unfold treePath.last, treePath.init.
  rewrite rev_app_distr, removelast_last. split; reflexivity.
Qed.

(** Past the root, the tree's deletion leaves no node at the path. *)
Lemma deleteNodeAt_removes p root :
  p <> [] -> Tree.nodeAtPath (Tree.deleteNodeAt p root) p = None.
Proof.
  intros Hp. destruct (path_init_last p Hp) as [i [Hl Hi]].
  unfold Tree.deleteNodeAt. rewrite Hl.
  rewrite Hi at 2. rewrite nodeAtPath_app.
  assert (Hk : keeps_id (Tree.removeChild i)) by (intro n; reflexivity).
  destruct (Tree.nodeAtPath root (treePath.init p)) as [n|] eqn:E.
  - rewrite (nodeAtPath_updateAt _ _ Hk _ _ E). apply childById_removeChild.
  - now rewrite (nodeAtPath_updateAt_none _ _ Hk _ E).
Qed.

Lemma final_seq_preserved {A : Type} (g : Ctrl.t -> A) h1 h2 s :
  preserves g h2 -> g (final ((h1 ;; h2) s)) = g (final (h1 s)).
Proof.
  intros H. unfold seq. destruct (outcome (h1 s)); cbn [final]; [|reflexivity].
  apply H.
Qed.

Lemma jump_preserves_study p : preserves Ctrl.study (jump p).
Proof. unfold jump. unfold_jump. preserves_tac. Qed.

Lemma userJump_preserves_study p : preserves Ctrl.study (userJump p).
Proof. unfold userJump, jump. unfold_jump. preserves_tac. Qed.

Lemma jump_after_delete_facts p s :
  let j := jump_after_delete p s in
  Ctrl.tree (final j) = Tree.deleteNodeAt p (Ctrl.tree s)
  /\ Ctrl.study (final j) = Ctrl.study s
  /\ Ctrl.path (final j)
     = (if treePath.contains (Ctrl.path s) p then treePath.init p
        else Ctrl.path s).
Proof.
  cbv zeta. unfold jump_after_delete.
  destruct (treePath.contains (Ctrl.path s) p).
  - rewrite userJump_preserves_tree, userJump_preserves_study.
    repeat split. apply userJump_establishes_path.
  - rewrite jump_preserves_tree, jump_preserves_study.
    repeat split. apply jump_sets_path.
Qed.

Lemma deleteNode_proceeds asked p s :
  deleted asked p s
    (((fun s0 => mkResult Returned s0 asked) ;;
      assign (Ctrl.set_tree (Tree.deleteNodeAt p (Ctrl.tree s))) ;;
     (let* cur := Ctrl.path in
      (if treePath.contains cur p then userJump (treePath.init p)
       else jump cur)) ;;
     let* st := Ctrl.study in
     when st (call (StudyDeleteNode p))) s).
Proof.
  destruct (jump_after_delete_facts p s) as (Ht & Hs & Hp).
  assert (E : ((fun s0 => mkResult Returned s0 asked) ;;
               assign (Ctrl.set_tree (Tree.deleteNodeAt p (Ctrl.tree s))) ;;
               (let* cur := Ctrl.path in
                (if treePath.contains cur p then userJump (treePath.init p)
                 else jump cur)) ;;
               let* st := Ctrl.study in
               when st (call (StudyDeleteNode p))) s
              = let j := jump_after_delete p s in
                mkResult (outcome j) (final j)
                  (asked ++ trace j
                   ++ match outcome j with
                      | Returned =>
                          if Ctrl.study s then [StudyDeleteNode p] else []
                      | Threw => []
                      end)).
  { assert (EJ : (let* cur := Ctrl.path in
                  (if treePath.contains cur p then userJump (treePath.init p)
                   else jump cur))
                   (Ctrl.set_tree (Tree.deleteNodeAt p (Ctrl.tree s)) s)
                 = jump_after_delete p s).
    { unfold read, jump_after_delete. cbn [Ctrl.path Ctrl.set_tree].
      now destruct (treePath.contains _ _). }
    cbv zeta. unfold seq. cbn [outcome final trace assign app].
    rewrite EJ. revert Hs.
    destruct (jump_after_delete p s) as [[|] sj tj];
      cbn [outcome final trace]; intros Hs.
    - unfold read. rewrite Hs.
      destruct (Ctrl.study s); reflexivity.
    - now rewrite app_nil_r. }
  rewrite E. unfold deleted. cbv zeta. cbn [outcome final trace].
  repeat split; try assumption.
  - intros Hne. rewrite Ht. now apply deleteNodeAt_removes.
  - intros ->. rewrite Ht. reflexivity.
Qed.

Lemma deleted_ext asked p s r r' :
  outcome r = outcome r' -> final r = final r' -> trace r = trace r' ->
  deleted asked p s r -> deleted asked p s r'.
Proof. unfold deleted. cbv zeta. intros <- <- <-. exact (fun H => H). Qed.

(** C5, amended: [deleteNode(p)] does nothing when no node exists at [p];
    when the subtree at [p] has 10 or more nodes or any comment it first
    asks for confirmation and does nothing more if that is refused; once
    confirmed, or when no confirmation is needed, the subtree at [p] is
    removed from its parent - at the root, which has none, the tree stays
    as it is - and the cursor jumps: by [userJump] to the parent path of
    [p] if the current path runs through [p], by [jump] to the current
    path otherwise; the call ends as that jump ends, with the jump's state
    and calls, and the study is told afterwards if the jump returned. *)
Theorem deleteNode_confirmed_subtree (answer : bool) (p : Path) (s : Ctrl.t) :
  (Tree.nodeAtPath (Ctrl.tree s) p = None ->
   deleteNode answer p s = mkResult Returned s [])
  /\ (forall node,
        Tree.nodeAtPath (Ctrl.tree s) p = Some node ->
        let count := treeOps.countChildrenAndComments node in
        let asked := Confirm (treeOps.nodes count) (treeOps.comments count) in
        let r := deleteNode answer p s in
        (10 <= treeOps.nodes count \/ 0 < treeOps.comments count ->
         hd_error (trace r) = Some asked
         /\ (answer = false -> r = mkResult Returned s [asked])
         /\ (answer = true -> deleted [asked] p s r))
        /\ (treeOps.nodes count < 10 /\ treeOps.comments count <= 0 ->
            ~ In asked (trace r) /\ deleted [] p s r)).
Proof.
  split.
  - intros H. unfold deleteNode, read. now rewrite H.
  - intros node H. cbv zeta.
    set (count := treeOps.countChildrenAndComments node).
    set (asked := Confirm (treeOps.nodes count) (treeOps.comments count)).
    set (proceed :=
           assign (Ctrl.set_tree (Tree.deleteNodeAt p (Ctrl.tree s))) ;;
           (let* cur := Ctrl.path in
            (if treePath.contains cur p then userJump (treePath.init p)
             else jump cur)) ;;
           let* st := Ctrl.study in
           when st (call (StudyDeleteNode p))).
    assert (E0 : deleteNode answer p s
                 = (if (10 <=? treeOps.nodes count)
                       || (0 <? treeOps.comments count)
                    then call asked ;; (if answer then proceed else skip)
                    else proceed) s).
    { unfold deleteNode. unfold read at 1. now rewrite H. }
    rewrite E0. clear E0.
    assert (Hp : deleted [] p s (proceed s)).
    { apply (deleted_ext [] p s _ _ eq_refl eq_refl eq_refl
               (deleteNode_proceeds [] p s)). }
    split.
    + intros Hc.
      assert (E : (10 <=? treeOps.nodes count) || (0 <? treeOps.comments count)
                  = true).
      { apply orb_true_iff.
        destruct Hc; [left; apply Z.leb_le | right; apply Z.ltb_lt]; lia. }
      rewrite E. unfold seq at 1. cbn [call outcome final trace app].
      split; [reflexivity|]. split; intros ->.
      * reflexivity.
      * apply (deleted_ext [asked] p s _ _ eq_refl eq_refl eq_refl
                 (deleteNode_proceeds [asked] p s)).
    + intros [Hn Hc].
      assert (E : (10 <=? treeOps.nodes count) || (0 <? treeOps.comments count)
                  = false).
      { apply orb_false_iff.
        split; [apply Z.leb_gt | apply Z.ltb_ge]; lia. }
      rewrite E. split; [|exact Hp].
      assert (Hq : quiet (fun e => match e with Confirm _ _ => true | _ => false end)
                     proceed).
      { unfold proceed, userJump, jump. unfold_jump. cbn [when]. quiet_tac. }
      intros Hin.
      assert (Hin' : In asked
                       (filter (fun e => match e with
                                         | Confirm _ _ => true
                                         | _ => false
                                         end) (trace (proceed s))))
        by (apply filter_In; split; [exact Hin | reflexivity]).
      now rewrite Hq in Hin'.
Qed.

(** Deleting [d4], whose comment calls for confirmation, with the cursor on
    it; and deleting a path that does not resolve. *)
Lemma deleteNode_confirmed_subtree_witness :
  let s := Ctrl.set_path ["d4"] Sample.ctrl in
  Ctrl.path (final (deleteNode true ["d4"] s)) = []
  /\ Tree.nodeAtPath (Ctrl.tree (final (deleteNode true ["d4"] s))) ["d4"] = None
  /\ trace (deleteNode true ["d4"] s)
     = Confirm 1 1 :: trace (jump_after_delete ["d4"] s)
  /\ hd_error (trace (jump_after_delete ["d4"] s)) = Some AutoplayStop
  /\ deleteNode false ["d4"] s = mkResult Returned s [Confirm 1 1]
  /\ deleteNode true ["c4"] s = mkResult Returned s [].
Proof.
  cbv zeta.
  destruct (deleteNode_confirmed_subtree true ["d4"]
              (Ctrl.set_path ["d4"] Sample.ctrl)) as [_ Hyes].
  destruct (deleteNode_confirmed_subtree false ["d4"]
              (Ctrl.set_path ["d4"] Sample.ctrl)) as [_ Hno].
  destruct (deleteNode_confirmed_subtree true ["c4"]
              (Ctrl.set_path ["d4"] Sample.ctrl)) as [Hnone _].
  destruct (Hyes Sample.d4 eq_refl) as [Hyes' _].
  destruct (Hno Sample.d4 eq_refl) as [Hno' _].
  destruct Hyes' as (_ & _ & Hdel); [right; simpl; lia|].
  destruct Hno' as (_ & Hrefused & _); [right; simpl; lia|].
  destruct (Hdel eq_refl) as (_ & _ & Htrace & _ & Hgone & _ & Hpath).
  split; [exact Hpath|].
  split; [apply Hgone; discriminate|].
  split; [rewrite Htrace; reflexivity|].
  split; [reflexivity|].
  split; [apply Hrefused; reflexivity | apply Hnone; reflexivity].
Defined.

(** ** Applying evaluations *)

Section Evaluations.
Variable isEvalBetter : ClientEval.t -> option ClientEval.t -> bool.

Lemma storeEval_keeps_shape ev tm h :
  keeps_shape (fun n => fst (storeEval isEvalBetter ev tm h n)).
Proof.
  intros n. unfold storeEval.
  destruct tm.
  - destruct (Node.threat n) as [th|];
      [destruct (_ || _)|]; split; reflexivity.
  - destruct (isEvalBetter _ _); [split; reflexivity|].
    destruct (Node.ceval n) as [c|]; [|split; reflexivity].
    destruct (js_lt _ _); split; reflexivity.
Qed.

(** The tree and the objects [onNewCeval] leaves behind. *)
Lemma onNewCeval_final ev p tm s node :
  Tree.nodeAtPath (Ctrl.tree s) p = Some node ->
  let stale :=
    negb (String.eqb (Node.fen node) (ClientEval.fen (Ctrl.evals s ev)))
    && negb tm in
  Ctrl.tree (final (onNewCeval isEvalBetter ev p tm s))
  = (if stale then Ctrl.tree s
     else Tree.updateAt p
            (fun n => fst (storeEval isEvalBetter ev tm (Ctrl.evals s) n))
            (Ctrl.tree s))
  /\ Ctrl.evals (final (onNewCeval isEvalBetter ev p tm s))
     = (if stale then Ctrl.evals s
        else snd (storeEval isEvalBetter ev tm (Ctrl.evals s) node)).
Proof.
  intros H. cbv zeta.
  split; unfold onNewCeval; unfold read at 1 2; rewrite H;
    (destruct (_ && _); [reflexivity|]);
    rewrite !seq_after_returning by apply returns_assign;
    cbn [assign final];
    match goal with
    | |- ?g (final (?h ?s')) = _ =>
        assert (Hg : preserves g h)
          by (unfold setAutoShapes; preserves_tac);
        rewrite Hg
    end;
    reflexivity.
Qed.

Lemma onNewCeval_node ev p tm s node :
  Tree.nodeAtPath (Ctrl.tree s) p = Some node ->
  Tree.nodeAtPath (Ctrl.tree (final (onNewCeval isEvalBetter ev p tm s))) p
  = Some (if negb (String.eqb (Node.fen node)
                     (ClientEval.fen (Ctrl.evals s ev))) && negb tm
          then node
          else fst (storeEval isEvalBetter ev tm (Ctrl.evals s) node)).
Proof.
  intros H. destruct (onNewCeval_final ev p tm s node H) as [-> _].
  destruct (_ && _); [exact H|].
  apply (nodeAtPath_updateAt p
           (fun n => fst (storeEval isEvalBetter ev tm (Ctrl.evals s) n)));
    [|exact H].
  apply keeps_shape_id, storeEval_keeps_shape.
Qed.

Lemma onNewCeval_threat_redraw ev s node :
  Tree.nodeAtPath (Ctrl.tree s) (Ctrl.path s) = Some node ->
  exists t,
    trace (onNewCeval isEvalBetter ev (Ctrl.path s) true s) = t ++ [Redraw].
Proof.
  intros H.
  unfold onNewCeval. unfold read at 1 2. rewrite H, andb_false_r.
  rewrite !seq_after_returning by apply returns_assign.
  cbn [assign final trace app]. unfold read at 1.
  cbn [Ctrl.path Ctrl.set_evals Ctrl.set_tree]. rewrite path_eqb_refl.
  cbn [when negb]. unfold setAutoShapes, read, seq, when, call, skip.
  destruct (Ctrl.chessground _); cbn;
    [exists [CgSetAutoShapes] | exists []]; reflexivity.
Qed.

(** C2: outside threat mode, an evaluation for a node whose [fen] differs
    from the evaluation's changes nothing and makes no call (no redraw, no
    overlay notification).  In threat mode the two [fen]s are not
    compared: when the node has no threat evaluation, or the incoming one
    is better or reaches a larger [maxDepth], [node.threat] is the incoming
    evaluation afterwards; otherwise the node is as it was; either way the
    node's client evaluation and the content of every evaluation object
    stay, and the redraw follows when the path is the cursor's. *)
Theorem onNewCeval_position_identity
  (ev : Obj) (p : Path) (s : Ctrl.t) (node : Node.t) :
  Tree.nodeAtPath (Ctrl.tree s) p = Some node ->
  (Node.fen node <> ClientEval.fen (Ctrl.evals s ev) ->
   onNewCeval isEvalBetter ev p false s = mkResult Returned s [])
  /\ (let r := onNewCeval isEvalBetter ev p true s in
      let h := Ctrl.evals s in
      let accepted :=
        match Node.threat node with
        | None => true
        | Some th =>
            isEvalBetter (h ev) (Some (h th))
            || js_lt (ClientEval.maxDepth (h th)) (ClientEval.maxDepth (h ev))
        end in
      exists node',
        Tree.nodeAtPath (Ctrl.tree (final r)) p = Some node'
        /\ Node.threat node' = (if accepted then Some ev else Node.threat node)
        /\ node' = (if accepted then Node.set_threat (Some ev) node else node)
        /\ Node.ceval node' = Node.ceval node
        /\ Ctrl.evals (final r) = Ctrl.evals s
        /\ (accepted = true -> storedThreat (final r) p = Some (h ev))
        /\ (p = Ctrl.path s -> exists t, trace r = t ++ [Redraw])).
Proof.
  intros H. split.
  - intros Hf. unfold onNewCeval, read. rewrite H.
    apply String.eqb_neq in Hf. now rewrite Hf.
  - cbv zeta.
    pose proof (onNewCeval_node ev p true s node H) as Hn.
    destruct (onNewCeval_final ev p true s node H) as [_ He].
    rewrite andb_false_r in Hn, He.
    unfold storedThreat, threatAt. rewrite Hn, He.
    eexists. split; [reflexivity|].
    unfold storeEval.
    destruct (match Node.threat node with
              | Some th => _
              | None => true
              end) eqn:Ea; cbn [fst snd].
    + repeat split. intros ->.
      eapply onNewCeval_threat_redraw, H.
    + repeat split; try discriminate. intros ->.
      eapply onNewCeval_threat_redraw, H.
Qed.

Hypothesis better_is_not_shallower :
  forall a b, isEvalBetter a (Some b) = true ->
              ClientEval.depth b <= ClientEval.depth a.

Lemma depth_le_refl c : depth_le c c.
Proof. destruct c; simpl; [lia | exact I]. Qed.

Lemma same_but_maxDepth_refl a : same_but_maxDepth a a.
Proof. repeat split. Qed.

Lemma write_same o f (h : Evals) : write o f h o = f (h o).
Proof. unfold write. now rewrite Nat.eqb_refl. Qed.

Lemma write_other o o' f (h : Evals) : o' <> o -> write o f h o' = h o'.
Proof.
  intros H. unfold write. apply Nat.eqb_neq in H. now rewrite H.
Qed.

(** What [node.ceval] reads at [p] after a client evaluation arrived. *)
Lemma storedCeval_after ev p s node :
  Tree.nodeAtPath (Ctrl.tree s) p = Some node ->
  storedCeval (final (onNewCeval isEvalBetter ev p false s)) p
  = if negb (String.eqb (Node.fen node) (ClientEval.fen (Ctrl.evals s ev)))
    then option_map (Ctrl.evals s) (Node.ceval node)
    else
      option_map (snd (storeEval isEvalBetter ev false (Ctrl.evals s) node))
        (Node.ceval (fst (storeEval isEvalBetter ev false (Ctrl.evals s) node))).
Proof.
  intros H. unfold storedCeval, cevalAt.
  rewrite (onNewCeval_node _ _ _ _ _ H).
  destruct (onNewCeval_final ev p false s node H) as [_ ->].
  rewrite andb_true_r. now destruct (negb _).
Qed.

Lemma onNewCeval_depth ev p s :
  depth_le (storedCeval s p)
    (storedCeval (final (onNewCeval isEvalBetter ev p false s)) p).
Proof.
  destruct (Tree.nodeAtPath (Ctrl.tree s) p) as [node|] eqn:H.
  - rewrite (storedCeval_after _ _ _ _ H).
    unfold storedCeval, cevalAt. rewrite H.
    destruct (negb _); [apply depth_le_refl|].
    unfold storeEval.
    destruct (Node.ceval node) as [c|] eqn:Ec; cbn [option_map].
    + destruct (isEvalBetter _ _) eqn:E; cbn [fst snd Node.ceval Node.set_ceval].
      * simpl. now apply better_is_not_shallower.
      * destruct (js_lt _ _); cbn [fst snd]; rewrite Ec; simpl;
          rewrite ?write_same; simpl; lia.
    + destruct (isEvalBetter _ _); cbn [fst snd]; exact I.
  - unfold storedCeval, cevalAt at 1. rewrite H. exact I.
Qed.

Lemma applyEvals_app evs ev p s :
  applyEvals isEvalBetter (evs ++ [ev]) p s
  = final (onNewCeval isEvalBetter ev p false (applyEvals isEvalBetter evs p s)).
Proof.
  revert s. induction evs as [|e evs IH]; intros s; simpl; [reflexivity|].
  apply IH.
Qed.

(** C3: along any sequence of evaluations applied to a path outside threat
    mode the depth of the stored client evaluation never decreases.  An
    incoming evaluation of lower depth never replaces the stored one: the
    node keeps the same evaluation object, changed in [maxDepth] at most.
    An incoming evaluation for the node's position that is not better but
    has a larger [maxDepth] raises the [maxDepth] of the stored object to
    its own and changes nothing else: not the node, no other field of the
    object, no other object; without a larger [maxDepth] - or with a
    [maxDepth] missing on either side - nothing changes at all. *)
Theorem onNewCeval_depth_monotone (p : Path) (s : Ctrl.t) :
  (forall evs ev,
      depth_le (storedCeval (applyEvals isEvalBetter evs p s) p)
               (storedCeval (applyEvals isEvalBetter (evs ++ [ev]) p s) p))
  /\ (forall ev c,
        cevalAt s p = Some c ->
        ClientEval.depth (Ctrl.evals s ev) < ClientEval.depth (Ctrl.evals s c) ->
        let s' := final (onNewCeval isEvalBetter ev p false s) in
        cevalAt s' p = Some c
        /\ same_but_maxDepth (Ctrl.evals s' c) (Ctrl.evals s c))
  /\ (forall ev node c,
        Tree.nodeAtPath (Ctrl.tree s) p = Some node ->
        Node.ceval node = Some c ->
        Node.fen node = ClientEval.fen (Ctrl.evals s ev) ->
        isEvalBetter (Ctrl.evals s ev) (Some (Ctrl.evals s c)) = false ->
        let h := Ctrl.evals s in
        let s' := final (onNewCeval isEvalBetter ev p false s) in
        Tree.nodeAtPath (Ctrl.tree s') p = Some node
        /\ (forall o, o <> c -> Ctrl.evals s' o = h o)
        /\ same_but_maxDepth (Ctrl.evals s' c) (h c)
        /\ ClientEval.maxDepth (Ctrl.evals s' c)
           = (if js_lt (ClientEval.maxDepth (h c)) (ClientEval.maxDepth (h ev))
              then ClientEval.maxDepth (h ev)
              else ClientEval.maxDepth (h c))
        /\ option_map ClientEval.maxDepth (storedCeval s' p)
           = Some (ClientEval.maxDepth (Ctrl.evals s' c))).
Proof.
  split; [|split].
  - intros evs ev. rewrite applyEvals_app. apply onNewCeval_depth.
  - intros ev c Hc Hd. cbv zeta. unfold cevalAt in *.
    destruct (Tree.nodeAtPath (Ctrl.tree s) p) as [node|] eqn:H;
      [|discriminate].
    rewrite (onNewCeval_node _ _ _ _ _ H).
    destruct (onNewCeval_final ev p false s node H) as [_ ->].
    destruct (_ && _); [split; [exact Hc | apply same_but_maxDepth_refl]|].
    unfold storeEval. rewrite Hc. cbn [option_map].
    destruct (isEvalBetter _ _) eqn:E.
    + apply better_is_not_shallower in E. lia.
    + destruct (js_lt _ _); cbn [fst snd]; (split; [exact Hc|]);
        rewrite ?write_same; repeat split.
  - intros ev node c H Hc Hf Hb. cbv zeta.
    unfold storedCeval, cevalAt.
    rewrite (onNewCeval_node _ _ _ _ _ H).
    destruct (onNewCeval_final ev p false s node H) as [_ ->].
    apply String.eqb_eq in Hf. rewrite Hf. cbn [negb andb].
    unfold storeEval. rewrite Hc. cbn [option_map]. rewrite Hb.
    destruct (js_lt _ _); cbn [fst snd]; rewrite ?Hc; cbn [option_map];
      rewrite ?write_same.
    + split; [reflexivity|].
      split; [intros o Ho; now apply write_other|].
      repeat split.
    + repeat split.
Qed.

End Evaluations.

Lemma isEvalBetter_spec_depth a b :
  isEvalBetter_spec a (Some b) = true ->
  ClientEval.depth b <= ClientEval.depth a.
Proof.
  unfold isEvalBetter_spec. intros H.
  apply orb_true_iff in H as [H|H].
  - apply Z.ltb_lt in H. lia.
  - apply andb_true_iff in H as [H _]. apply andb_true_iff in H as [H _].
    apply Z.eqb_eq in H. lia.
Qed.

(** An evaluation of another position arrives for [e4]; a threat
    evaluation of another position arrives for [e4]. *)
Lemma onNewCeval_position_identity_witness :
  let s :=
    Ctrl.set_evals (Sample.objects [Sample.eval "fen-d4" 20 30]) Sample.ctrl in
  onNewCeval isEvalBetter_spec 0%nat ["e4"] false s = mkResult Returned s []
  /\ threatAt (final (onNewCeval isEvalBetter_spec 0%nat ["e4"] true s)) ["e4"]
     = Some 0%nat
  /\ storedThreat (final (onNewCeval isEvalBetter_spec 0%nat ["e4"] true s))
       ["e4"]
     = Some (Sample.eval "fen-d4" 20 30).
Proof.
  cbv zeta.
  pose proof (onNewCeval_position_identity isEvalBetter_spec 0%nat ["e4"]
                (Ctrl.set_evals (Sample.objects [Sample.eval "fen-d4" 20 30])
                   Sample.ctrl)
                Sample.e4 eq_refl) as [Hstale Hthreat].
  cbv zeta in Hthreat.
  destruct Hthreat as (node' & Hn & Ht & _ & _ & _ & Hs & _).
  split; [apply Hstale; discriminate|].
  split.
  - unfold threatAt. rewrite Hn. exact Ht.
  - apply Hs. reflexivity.
Defined.

(** Depth 20 is stored for [e4]; depth 18 with a larger [maxDepth] follows:
    the node keeps the first object, whose [maxDepth] is now 40. *)
Lemma onNewCeval_depth_monotone_witness :
  let s :=
    Ctrl.set_evals
      (Sample.objects [Sample.eval "fen-e4" 20 30; Sample.eval "fen-e4" 18 40])
      Sample.ctrl in
  let s1 := applyEvals isEvalBetter_spec [0%nat] ["e4"] s in
  let s2 := final (onNewCeval isEvalBetter_spec 1%nat ["e4"] false s1) in
  depth_le (storedCeval s1 ["e4"])
    (storedCeval (applyEvals isEvalBetter_spec ([0%nat] ++ [1%nat]) ["e4"] s)
       ["e4"])
  /\ cevalAt s2 ["e4"] = Some 0%nat
  /\ ClientEval.maxDepth (Ctrl.evals s2 0%nat) = Some 40.
Proof.
  cbv zeta.
  set (s := Ctrl.set_evals
              (Sample.objects
                 [Sample.eval "fen-e4" 20 30; Sample.eval "fen-e4" 18 40])
              Sample.ctrl).
  destruct (onNewCeval_depth_monotone isEvalBetter_spec isEvalBetter_spec_depth
              ["e4"] s) as [Hmono _].
  destruct (onNewCeval_depth_monotone isEvalBetter_spec isEvalBetter_spec_depth
              ["e4"] (applyEvals isEvalBetter_spec [0%nat] ["e4"] s))
    as (_ & Hlow & Hmax).
  split; [apply Hmono|].
  split.
  - apply (Hlow 1%nat 0%nat); [reflexivity | simpl; lia].
  - destruct (Hmax 1%nat (Node.set_ceval (Some 0%nat) Sample.e4) 0%nat
                eq_refl eq_refl eq_refl eq_refl) as (_ & _ & _ & Hm & _).
    exact Hm.
Defined.
